(** * transaction-check-api: the lookup handler of [src/index.ts]

    A shallow embedding of the Hono application of [src/index.ts]: the
    handler of [POST /api/payment/v2/:site/:id], the middleware stack in
    front of it, the [/health] route and the [gracefulShutdown] trigger.

    What the runtime provides is modelled, not translated:
    - JavaScript values are the values [JSON.parse] can return; numbers are
      carried as integers (the handler only tests a number for truthiness
      and copies it; fractions, [-0] and overflowing literals are outside
      the model);
    - strings are byte strings and [toLowerCase] folds the ASCII capitals;
    - [JSON.parse] itself is a parameter of the development;
    - the Redis server is a finite map of keys, behind a connection that is
      up or down; [GET] on a key that holds no string value is an error;
    - an [async] function runs to completion against the store it starts
      with: interleavings at [await] are not modelled. *)

From Stdlib Require Import ZArith Ascii String List Bool Lia.
From stdpp Require Import base strings list gmap.

Set Warnings "-register-all".
Local Open Scope Z_scope.
Local Open Scope string_scope.
Local Open Scope list_scope.

(** ** JavaScript values *)

Inductive json : Type :=
  | JNull
  | JBool (b : bool)
  | JNum (n : Z)
  | JStr (s : string)
  | JArr (items : list json)
  | JObj (members : list (string * json)).

(** The empty string, written without a literal. *)
Definition empty : string := EmptyString.

Definition is_empty (s : string) : bool :=
  match s with EmptyString => true | String _ _ => false end.

(** [ToBoolean]: [null], [false], [0] and the empty string are falsy. *)
Definition truthy (v : json) : bool :=
  match v with
  | JNull => false
  | JBool b => b
  | JNum n => negb (Z.eqb n 0)
  | JStr s => negb (is_empty s)
  | JArr _ | JObj _ => true
  end.

(** A property read gives [undefined] ([None]) or a value. An object
    built by [JSON.parse] keeps the last member of a repeated name; the
    other values have neither a [status] nor an [amount] property. *)
Fixpoint member (k : string) (l : list (string * json)) : option json :=
  match l with
  | [] => None
  | (k', v) :: l' =>
      match member k l' with
      | Some w => Some w
      | None => if String.eqb k' k then Some v else None
      end
  end.

Definition get_prop (v : json) (k : string) : option json :=
  match v with
  | JObj members => member k members
  | _ => None
  end.

(** [x || d], for [x] a property read. *)
Definition or_default (x : option json) (d : json) : json :=
  match x with
  | Some v => if truthy v then v else d
  | None => d
  end.

(** [h || d], for [h] a string or [undefined]: both [undefined] and the
    empty string give [d]. *)
Definition string_or (h : option string) (d : string) : string :=
  match h with
  | Some s => if is_empty s then d else s
  | None => d
  end.

Definition lower_ascii (c : ascii) : ascii :=
  let n := nat_of_ascii c in
  if (Nat.leb 65 n && Nat.leb n 90)%bool then ascii_of_nat (n + 32) else c.

Fixpoint toLowerCase (s : string) : string :=
  match s with
  | EmptyString => EmptyString
  | String c r => String (lower_ascii c) (toLowerCase r)
  end.

Inductive exn : Type :=
  | SyntaxError
  | TypeError
  | RedisError (msg : string).

Inductive outcome (A : Type) : Type :=
  | Returned (a : A)
  | Thrown (e : exn).
Arguments Returned {A} a.
Arguments Thrown {A} e.

(** ** The Redis server and its client *)

Inductive redis_value : Type :=
  | RString (s : string)
  | RNotString.

Record redis_state : Type := Redis {
  keyspace : gmap string redis_value;
  connected : bool
}.

Inductive command : Type :=
  | GET (key : string)
  | SET (key value : string)
  | PING
  | QUIT.

Inductive reply : Type :=
  | Nil
  | Bulk (s : string)
  | Simple (s : string).

Definition redis_exec (c : command) (r : redis_state)
  : outcome reply * redis_state :=
  if negb (connected r) then (Thrown (RedisError "Connection is closed."), r)
  else
    match c with
    | GET k =>
        match keyspace r !! k with
        | None => (Returned Nil, r)
        | Some (RString s) => (Returned (Bulk s), r)
        | Some RNotString => (Thrown (RedisError "WRONGTYPE"), r)
        end
    | SET k v =>
        (Returned (Simple "OK"),
         {| keyspace := <[k := RString v]> (keyspace r);
            connected := connected r |})
    | PING => (Returned (Simple "PONG"), r)
    | QUIT =>
        (Returned (Simple "OK"),
         {| keyspace := keyspace r; connected := false |})
    end.

(** ** The process: module variables, console, clock, timers *)

Inductive method : Type :=
  | MGet
  | MPost
  | MOptions
  | MOther (name : string).

Inductive task : Type :=
  | RejectShutdownTimeout
  | ResumeShutdown.

Inductive log_event : Type :=
  | Incoming (m : method) (path : list string)
  | Outgoing (m : method) (path : list string) (code : Z)
  | Checking (debugKey correlationId id site : string)
  | FoundCompay (debugKey correlationId id : string)
  | FoundLegacy (debugKey correlationId id type : string)
  | ParseFailed (debugKey correlationId key : string)
  | Returning (debugKey correlationId status : string) (amount : option json)
  | NotFoundInRedis (debugKey correlationId id : string)
  | ErrorChecking (debugKey correlationId : string) (error : exn)
  | ShutdownInProgress
  | Banner
  | ReceivedSignal (signal : string)
  | StoppingConnections
  | WaitingInFlight
  | ClosingRedis
  | RedisClosed
  | ShutdownCompleted
  | ShutdownError (error : exn)
  | UnhandledRejection.

Record world : Type := World {
  isShuttingDown : bool;
  redis : redis_state;
  wire : list command;
  console : list log_event;
  clock : Z;
  rtt : Z;
  entropy : string;
  timers : list (task * Z);
  exit_code : option Z
}.

(** Computations of the process: a result or an exception, and the world
    they leave. *)
Definition js (A : Type) : Type := world → outcome A * world.

#[export] Instance js_ret : MRet js := λ A a w, (Returned a, w).

#[export] Instance js_bind : MBind js := λ A B f m w,
  match m w with
  | (Returned a, w') => f a w'
  | (Thrown e, w') => (Thrown e, w')
  end.

Definition throw {A : Type} (e : exn) : js A := λ w, (Thrown e, w).

Definition lift {A : Type} (o : outcome A) : js A := λ w, (o, w).

Definition try_catch {A : Type} (body : js A) (handler : exn → js A) : js A :=
  λ w,
    match body w with
    | (Returned a, w') => (Returned a, w')
    | (Thrown e, w') => handler e w'
    end.

Definition console_log (e : log_event) : js unit := λ w,
  (Returned tt,
   {| isShuttingDown := isShuttingDown w; redis := redis w; wire := wire w;
      console := console w ++ [e]; clock := clock w; rtt := rtt w;
      entropy := entropy w; timers := timers w; exit_code := exit_code w |}).

(** One command over the connection: the server answers, the client
    remembers what it sent, a round trip elapses. *)
Definition redis_call (c : command) : js reply := λ w,
  let (o, r) := redis_exec c (redis w) in
  (o,
   {| isShuttingDown := isShuttingDown w; redis := r; wire := wire w ++ [c];
      console := console w; clock := clock w + rtt w; rtt := rtt w;
      entropy := entropy w; timers := timers w; exit_code := exit_code w |}).

(** [redis.get(key)]: [null] or the string. *)
Definition redis_get (key : string) : js (option string) :=
  r ← redis_call (GET key);
  mret (match r with Bulk s => Some s | _ => None end).

Definition redis_disconnect : js unit := λ w,
  (Returned tt,
   {| isShuttingDown := isShuttingDown w;
      redis := {| keyspace := keyspace (redis w); connected := false |};
      wire := wire w; console := console w; clock := clock w; rtt := rtt w;
      entropy := entropy w; timers := timers w; exit_code := exit_code w |}).

Definition Date_now : js Z := λ w, (Returned (clock w), w).

Definition randomUUID : js string := λ w, (Returned (entropy w), w).

Definition read_isShuttingDown : js bool := λ w, (Returned (isShuttingDown w), w).

Definition write_isShuttingDown (b : bool) : js unit := λ w,
  (Returned tt,
   {| isShuttingDown := b; redis := redis w; wire := wire w;
      console := console w; clock := clock w; rtt := rtt w;
      entropy := entropy w; timers := timers w; exit_code := exit_code w |}).

Definition setTimeout (t : task) (delay : Z) : js unit := λ w,
  (Returned tt,
   {| isShuttingDown := isShuttingDown w; redis := redis w; wire := wire w;
      console := console w; clock := clock w; rtt := rtt w;
      entropy := entropy w; timers := timers w ++ [(t, delay)];
      exit_code := exit_code w |}).

(** [process.exit(code)]: the first exit code stands. *)
Definition process_exit (code : Z) : js unit := λ w,
  (Returned tt,
   {| isShuttingDown := isShuttingDown w; redis := redis w; wire := wire w;
      console := console w; clock := clock w; rtt := rtt w;
      entropy := entropy w; timers := timers w;
      exit_code := match exit_code w with Some c => Some c | None => Some code end |}).

(** ** Requests and responses *)

Record request : Type := Request {
  req_method : method;
  req_path : list string;
  req_headers : list (string * string)
}.

Fixpoint assoc (k : string) (l : list (string * string)) : option string :=
  match l with
  | [] => None
  | (k', v) :: l' => if String.eqb k' k then Some v else assoc k l'
  end.

Definition header (req : request) (name : string) : option string :=
  assoc name (req_headers req).

Module Data.
Record t : Type := Make { status : string; amount : json }.
End Data.

Record TransactionResponse : Type := Envelope {
  status : bool;
  message : string;
  data : Data.t
}.

Inductive body : Type :=
  | TransactionBody (r : TransactionResponse)
  | ShuttingDownBody (timestamp : Z)
  | HealthyBody (latency_ms timestamp : Z)
  | UnhealthyBody (error : string) (timestamp : Z)
  | NoBody
  | TextBody (text : string).

Record response : Type := Response {
  code : Z;
  content : body
}.

(** [c.json(value)] and [c.json(value, status)]. *)
Definition c_json (b : body) (status : Z) : js response :=
  mret {| code := status; content := b |}.

(** ** The application *)

Definition KEY_PREFIX : string := "kob:transaction".
Definition TRANSACTION_TYPES : list string := ["deposit"; "withdraw"; "settlement"].
Definition GRACEFUL_SHUTDOWN_TIMEOUT : Z := 30000.

Definition providerKey (id : string) : string := "kob:ttf:compay:" +:+ id.

Definition legacyKey (type site id : string) : string :=
  KEY_PREFIX +:+ ":" +:+ type +:+ ":" +:+ site +:+ ":" +:+ id.

Definition notFoundResponse : TransactionResponse :=
  {| status := true; message := empty;
     data := {| Data.status := "pending"; Data.amount := JNum 0 |} |}.

Definition errorResponse : TransactionResponse :=
  {| status := true; message := empty;
     data := {| Data.status := "pending"; Data.amount := JNum 0 |} |}.

(** [raw?.toLowerCase()]: [undefined] and [null] short-circuit, a string
    is folded, and any other value has no [toLowerCase] to call. *)
Definition optional_toLowerCase (raw : option json) : outcome (option string) :=
  match raw with
  | None | Some JNull => Returned None
  | Some (JStr s) => Returned (Some (toLowerCase s))
  | Some _ => Thrown TypeError
  end.

(** Lines 241-246: the status of a found record. *)
Definition normalize_status (raw : option json) : outcome string :=
  match optional_toLowerCase raw with
  | Returned lowered =>
      let status := string_or lowered "pending" in
      Returned (if String.eqb status "created" then "pending" else status)
  | Thrown e => Thrown e
  end.

(** [if (data)] on what [redis.get] resolved to. *)
Definition data_truthy (data : option string) : bool :=
  match data with
  | Some d => negb (is_empty d)
  | None => false
  end.

Section Application.

(** [JSON.parse]: the value, or [None] when it throws a [SyntaxError]. *)
Variable JSON_parse : string → option json.

Definition parse (data : option string) : js json :=
  match data with
  | Some d =>
      match JSON_parse d with
      | Some v => mret v
      | None => throw SyntaxError
      end
  | None => mret JNull
  end.

Section Lookup.

Variables debugKey correlationId site id : string.

(** Lines 222-236: the loop over [TRANSACTION_TYPES]; a successful parse
    assigns [transaction] and breaks, whatever the value. *)
Fixpoint legacy_loop (types : list string) (transaction : json) : js json :=
  match types with
  | [] => mret transaction
  | type :: rest =>
      let key := legacyKey type site id in
      data ← redis_get key;
      if data_truthy data then
        brk ← try_catch
                 (t ← parse data;
                  console_log (FoundLegacy debugKey correlationId id type);;
                  mret (Some t))
                 (λ parseError,
                  console_log (ParseFailed debugKey correlationId key);;
                  mret None);
        match brk with
        | Some t => mret t
        | None => legacy_loop rest transaction
        end
      else legacy_loop rest transaction
  end.

(** Lines 203-237: the provider key, then the legacy keys. *)
Definition find_transaction : js json :=
  let transaction := JNull in
  data ← redis_get (providerKey id);
  transaction ←
    (if data_truthy data then
       try_catch
         (t ← parse data;
          console_log (FoundCompay debugKey correlationId id);;
          mret t)
         (λ parseError,
          console_log (ParseFailed debugKey correlationId (providerKey id));;
          mret transaction)
     else mret transaction);
  if negb (truthy transaction) then legacy_loop TRANSACTION_TYPES transaction
  else mret transaction.

(** Lines 239-259: the answer for a found record. *)
Definition found (transaction : json) : js response :=
  status ← lift (normalize_status (get_prop transaction "status"));
  let response :=
    {| status := true; message := empty;
       data := {| Data.status := status;
                  Data.amount := or_default (get_prop transaction "amount") (JNum 0) |} |} in
  console_log (Returning debugKey correlationId status (get_prop transaction "amount"));;
  c_json (TransactionBody response) 200.

(** Lines 200-273: the body of the [try]. *)
Definition try_block : js response :=
  transaction ← find_transaction;
  if truthy transaction then found transaction
  else
    console_log (NotFoundInRedis debugKey correlationId id);;
    c_json (TransactionBody notFoundResponse) 200.

(** Lines 274-288: the [catch]. *)
Definition catch_block (error : exn) : js response :=
  console_log (ErrorChecking debugKey correlationId error);;
  c_json (TransactionBody errorResponse) 200.

End Lookup.

(** Lines 192-289: [app.post('/api/payment/v2/:site/:id', ...)]. *)
Definition payment_handler (site id : string) (req : request) : js response :=
  let debugKey := string_or (header req "x-debug-key") "N/A" in
  correlationId ←
    (match header req "x-correlation-id" with
     | Some h => if is_empty h then randomUUID else mret h
     | None => randomUUID
     end);
  console_log (Checking debugKey correlationId id site);;
  try_catch (try_block debugKey correlationId site id)
            (catch_block debugKey correlationId).

(** Lines 168-188: [app.get('/health', ...)]. *)
Definition health_handler : js response :=
  try_catch
    (startTime ← Date_now;
     redis_call PING;;
     finish ← Date_now;
     let duration := finish - startTime in
     timestamp ← Date_now;
     c_json (HealthyBody duration timestamp) 200)
    (λ error,
     timestamp ← Date_now;
     c_json (UnhealthyBody
               (match error with
                | RedisError msg => msg
                | SyntaxError => "SyntaxError"
                | TypeError => "TypeError"
                end) timestamp) 503).

(** The router: the two routes of the file, Hono's 404 for the rest, and
    its 500 for a handler that throws. *)
Definition route (req : request) : js response :=
  try_catch
    (match req_method req, req_path req with
     | MGet, ["health"] => health_handler
     | MPost, ["api"; "payment"; "v2"; site; id] =>
         if is_empty site || is_empty id
         then mret {| code := 404; content := TextBody "404 Not Found" |}
         else payment_handler site id req
     | _, _ => mret {| code := 404; content := TextBody "404 Not Found" |}
     end)
    (λ error, mret {| code := 500; content := TextBody "Internal Server Error" |}).

(** Lines 156-165: the middleware that turns requests away once the
    process is shutting down. *)
Definition shutdown_guard (next : js response) : js response :=
  flag ← read_isShuttingDown;
  if (flag : bool) then
    timestamp ← Date_now;
    c_json (ShuttingDownBody timestamp) 503
  else next.

(** Line 148, [logger()] of hono/logger: a line in, a line out. *)
Definition logger (req : request) (next : js response) : js response :=
  console_log (Incoming (req_method req) (req_path req));;
  res ← next;
  console_log (Outgoing (req_method req) (req_path req) (code res));;
  mret res.

(** Lines 149-153, [cors(...)] of hono/cors: a preflight is answered at
    once with 204 and no body; any other request goes on (the headers the
    middleware adds to a response are not modelled). *)
Definition cors (req : request) (next : js response) : js response :=
  match req_method req with
  | MOptions => mret {| code := 204; content := NoBody |}
  | _ => next
  end.

(** [app.fetch]: the middleware in the order of registration. *)
Definition app_fetch (req : request) : js response :=
  logger req (cors req (shutdown_guard (route req))).

(** Lines 56-70 and 74-78 of [gracefulShutdown]: up to its first
    [await]. The timer of line 69 rejects a promise nobody awaits. *)
Definition gracefulShutdown (signal : string) : js unit :=
  flag ← read_isShuttingDown;
  if (flag : bool) then console_log ShutdownInProgress
  else
    write_isShuttingDown true;;
    console_log Banner;;
    console_log (ReceivedSignal signal);;
    console_log Banner;;
    setTimeout RejectShutdownTimeout GRACEFUL_SHUTDOWN_TIMEOUT;;
    console_log StoppingConnections;;
    console_log WaitingInFlight;;
    setTimeout ResumeShutdown 2000.

(** Lines 80-95 of [gracefulShutdown]: after the two seconds. *)
Definition resume_shutdown : js unit :=
  try_catch
    (console_log ClosingRedis;;
     redis_call QUIT;;
     console_log RedisClosed;;
     console_log Banner;;
     console_log ShutdownCompleted;;
     console_log Banner;;
     process_exit 0)
    (λ error,
     console_log (ShutdownError error);;
     redis_disconnect;;
     process_exit 1).

(** What the event loop can run next: a signal (lines 99-100), a request,
    or a timer that fires (the rejected promise of line 69 reaches the
    handler of lines 108-111). *)
Inductive event : Type :=
  | Signal (name : string)
  | Fetch (req : request)
  | Fire (t : task).

Definition step (e : event) (w : world) : option response * world :=
  match e with
  | Signal name => (None, snd (gracefulShutdown name w))
  | Fetch req =>
      match app_fetch req w with
      | (Returned res, w') => (Some res, w')
      | (Thrown _, w') => (None, w')
      end
  | Fire RejectShutdownTimeout =>
      (None, snd ((console_log UnhandledRejection;;
                   gracefulShutdown "UNHANDLED_REJECTION") w))
  | Fire ResumeShutdown => (None, snd (resume_shutdown w))
  end.

Definition run (es : list event) (w : world) : world :=
  fold_left (λ w e, snd (step e w)) es w.

End Application.

(** ** Observations on a run *)

(** [evolves w w' cmds]: from [w] to [w'] the process sent [cmds] and
    wrote to the console, and nothing else happened: same store, same
    connection, same flag, same timers, no exit. *)
Definition evolves (w w' : world) (cmds : list command) : Prop :=
  isShuttingDown w' = isShuttingDown w ∧
  redis w' = redis w ∧
  wire w' = wire w ++ cmds ∧
  timers w' = timers w ∧
  exit_code w' = exit_code w ∧
  rtt w' = rtt w ∧
  entropy w' = entropy w.

(** What [redis.get(key)] settles to, as a function of the store. *)
Definition fetch (r : redis_state) (key : string) : outcome (option string) :=
  match fst (redis_exec (GET key) r) with
  | Returned (Bulk s) => Returned (Some s)
  | Returned _ => Returned None
  | Thrown e => Thrown e
  end.

(** What one candidate key holds, as the handler sees it. *)
Inductive probe : Type :=
  | Failed (e : exn)
  | Miss
  | Malformed
  | Parsed (v : json).

Section Observations.

Variable JSON_parse : string → option json.

Definition probe_key (r : redis_state) (key : string) : probe :=
  match fetch r key with
  | Thrown e => Failed e
  | Returned data =>
      if data_truthy data then
        match data with
        | Some d =>
            match JSON_parse d with
            | Some v => Parsed v
            | None => Malformed
            end
        | None => Miss
        end
      else Miss
  end.

(** The value [legacy_loop] leaves in [transaction], and the keys it
    read, in order. *)
Fixpoint legacy_scan (r : redis_state) (site id : string)
    (types : list string) (transaction : json) : outcome json * list string :=
  match types with
  | [] => (Returned transaction, [])
  | type :: rest =>
      let key := legacyKey type site id in
      match probe_key r key with
      | Failed e => (Thrown e, [key])
      | Parsed v => (Returned v, [key])
      | Miss | Malformed =>
          let (o, keys) := legacy_scan r site id rest transaction in
          (o, key :: keys)
      end
  end.

(** The same for [find_transaction]. *)
Definition scan (r : redis_state) (site id : string) : outcome json * list string :=
  let key := providerKey id in
  match probe_key r key with
  | Failed e => (Thrown e, [key])
  | Parsed v =>
      if truthy v then (Returned v, [key])
      else
        let (o, keys) := legacy_scan r site id TRANSACTION_TYPES v in
        (o, key :: keys)
  | Miss | Malformed =>
      let (o, keys) := legacy_scan r site id TRANSACTION_TYPES JNull in
      (o, key :: keys)
  end.

(** The envelope for a found record whose status normalises to [st]. *)
Definition foundResponse (st : string) (transaction : json) : TransactionResponse :=
  {| status := true; message := empty;
     data := {| Data.status := st;
                Data.amount := or_default (get_prop transaction "amount") (JNum 0) |} |}.

(** What the [try] block comes to, given what the lookup left. *)
Definition try_result (o : outcome json) : outcome response :=
  match o with
  | Thrown e => Thrown e
  | Returned t =>
      if truthy t then
        match normalize_status (get_prop t "status") with
        | Returned st =>
            Returned {| code := 200; content := TransactionBody (foundResponse st t) |}
        | Thrown e => Thrown e
        end
      else Returned {| code := 200; content := TransactionBody notFoundResponse |}
  end.

(** What the handler answers, as a function of the store, [site] and [id]. *)
Definition answer (r : redis_state) (site id : string) : response :=
  match try_result (fst (scan r site id)) with
  | Returned res => res
  | Thrown _ => {| code := 200; content := TransactionBody errorResponse |}
  end.

(** The keys a lookup may read, in the order it reads them. *)
Definition candidate_keys (site id : string) : list string :=
  providerKey id :: map (λ type, legacyKey type site id) TRANSACTION_TYPES.

(** A key yields a usable record when its value parses to a truthy value. *)
Definition usable (p : probe) : bool :=
  match p with
  | Parsed v => truthy v
  | _ => false
  end.

Definition no_usable_record (r : redis_state) (site id : string) : bool :=
  forallb (λ key, negb (usable (probe_key r key))) (candidate_keys site id).

(** A key that misses or holds what does not parse. *)
Definition miss_or_malformed (p : probe) : bool :=
  match p with
  | Miss | Malformed => true
  | _ => false
  end.

(** A key that misses, holds what does not parse, or parses to a falsy
    value. *)
Definition nothing_found (p : probe) : bool :=
  match p with
  | Miss | Malformed => true
  | Parsed v => negb (truthy v)
  | Failed _ => false
  end.

(** The lookup ends in the not-found branch of lines 261-273. *)
Definition declares_absent (dk cid site id : string) (w : world) : Prop :=
  ∃ t, fst (find_transaction JSON_parse dk cid site id w) = Returned t ∧
       truthy t = false.

(** How many commands one request sends over the connection. *)
Definition reads (site id : string) (req : request) (w : world) : nat :=
  (length (wire (snd (payment_handler JSON_parse site id req w))) - length (wire w))%nat.

End Observations.

(** The world with [key] deleted from the store. *)
Definition forget (key : string) (w : world) : world :=
  {| isShuttingDown := isShuttingDown w;
     redis := {| keyspace := delete key (keyspace (redis w));
                 connected := connected (redis w) |};
     wire := wire w; console := console w; clock := clock w; rtt := rtt w;
     entropy := entropy w; timers := timers w; exit_code := exit_code w |}.

(** ** Worked inputs *)

(** The double quote, and the JSON texts of the examples. *)
Definition dq : string := String (ascii_of_nat 34) EmptyString.

Definition quoted (s : string) : string := dq +:+ s +:+ dq.

(** The text [{"status":<status>,"amount":<amount>}]. *)
Definition record_text (status amount : string) : string :=
  "{" +:+ quoted "status" +:+ ":" +:+ status +:+ "," +:+
  quoted "amount" +:+ ":" +:+ amount +:+ "}".

(** [JSON.parse] on the texts the examples store; every other text the
    examples use is not JSON. *)
Definition example_texts : list (string * json) :=
  [ (record_text (quoted "pending") "500",
     JObj [("status", JStr "pending"); ("amount", JNum 500)]);
    (record_text (quoted "created") "500",
     JObj [("status", JStr "created"); ("amount", JNum 500)]);
    (record_text (quoted "SUCCESS") "100",
     JObj [("status", JStr "SUCCESS"); ("amount", JNum 100)]);
    (record_text (quoted "success") (quoted "abc"),
     JObj [("status", JStr "success"); ("amount", JStr "abc")]);
    (record_text "5" "300",
     JObj [("status", JNum 5); ("amount", JNum 300)]);
    ("null", JNull) ].

Fixpoint example_lookup (text : string) (table : list (string * json)) : option json :=
  match table with
  | [] => None
  | (t, v) :: rest => if String.eqb t text then Some v else example_lookup text rest
  end.

Definition example_parse (text : string) : option json :=
  example_lookup text example_texts.

(** A process that has just started, over a store of string values. *)
Definition boot (entries : list (string * string)) : world :=
  {| isShuttingDown := false;
     redis := {| keyspace := list_to_map (map (λ kv, (fst kv, RString (snd kv))) entries);
                 connected := true |};
     wire := []; console := []; clock := 1000; rtt := 5;
     entropy := "00000000-0000-4000-8000-000000000000";
     timers := []; exit_code := None |}.

(** The same process after a first signal. *)
Definition draining (entries : list (string * string)) : world :=
  snd (gracefulShutdown "SIGTERM" (boot entries)).



Definition post (site id : string) : request :=
  {| req_method := MPost; req_path := ["api"; "payment"; "v2"; site; id];
     req_headers := [("content-type", "application/json")] |}.

(** Two lookups that the rest of the handler cannot tell apart: the same
    outcome, or two falsy values. *)
Definition alike (o o' : outcome json) : Prop :=
  o = o' ∨
  ∃ t t', o = Returned t ∧ o' = Returned t' ∧ truthy t = false ∧ truthy t' = false.

(** Two contents of a legacy key that the loop cannot tell apart. *)
Definition interchangeable (p q : probe) : Prop :=
  p = q ∨ (miss_or_malformed p = true ∧ miss_or_malformed q = true).

(** The same for the provider key, where a falsy value lets the lookup
    go on. *)
Definition interchangeable_first (p q : probe) : Prop :=
  p = q ∨ (nothing_found p = true ∧ nothing_found q = true).

(** The same process when the connection to the store is down. *)
Definition unreachable (entries : list (string * string)) : world :=
  snd (redis_disconnect (boot entries)).



(** ** Configuration *)




(** [s.includes(sub)]. *)
Definition includes (s sub : string) : bool :=
  match String.index 0 sub s with
  | Some _ => true
  | None => false
  end.

(** Line 40: [reconnectOnError], on the message of the error. *)
Definition reconnectOnError (message : option string) : bool :=
  match message with
  | Some m => includes m "READONLY"
  | None => false
  end.

(** ** The start of the process *)

Inductive cell : Type :=
  | Filled
  | Blank.

(** Line 136: the bar of [attempts] attempts. *)
Definition progress (attempts : Z) : list cell :=
  repeat Filled (Z.to_nat (Z.min attempts 20)) ++
  repeat Blank (Z.to_nat (Z.max (20 - attempts) 0)).

(** What the start writes; these lines are kept apart from the console of
    the running process. *)
Inductive startup_line : Type :=
  | WaitingForRedis
  | RedisReady
  | Progress (bar : list cell) (attempts maxRetries : Z)
  | ServerStarted (port : Z)
  | FailedToStart (message : string).

(** How [waitForRedis] ends: it returns, it throws, or the model ran out
    of fuel. *)
Inductive waited : Type :=
  | Ready
  | NotReady (message : string)
  | OutOfFuel.

(** What [startServer] returns for Bun to serve. *)
Module Server.
Record t : Type := Make { port : Z; fetch : request → js response }.
End Server.

Section Startup.

Variable JSON_parse : string → option json.

(** What the outside does to the world while the process sleeps. *)
Variable sleep : Z → world → world.

(** Lines 121-141: the loop of [waitForRedis]. The client is ready when
    its connection is up; the message of the error is the one for the
    thirty retries of the file. *)
Fixpoint waitForRedis_loop (fuel : nat) (maxRetries retryDelay attempts : Z)
    (w : world) (out : list startup_line) : waited * world * list startup_line :=
  match fuel with
  | O => (OutOfFuel, w, out)
  | S fuel' =>
      if Z.ltb attempts maxRetries then
        let (pong, w1) :=
          if connected (redis w) then
            match redis_call PING w with
            | (Returned (Simple result), w1) => (String.eqb result "PONG", w1)
            | (Returned _, w1) => (false, w1)
            | (Thrown error, w1) => (false, w1)
            end
          else (false, w) in
        if pong then (Ready, w1, out ++ [RedisReady])
        else
          let attempts := attempts + 1 in
          waitForRedis_loop fuel' maxRetries retryDelay attempts
            (sleep retryDelay w1)
            (out ++ [Progress (progress attempts) attempts maxRetries])
      else (NotReady "Redis not ready after 30 attempts", w, out)
  end.

(** Lines 114-142. *)
Definition waitForRedis (w : world) : waited * world * list startup_line :=
  let maxRetries := 30 in
  let retryDelay := 1000 in
  let attempts := 0 in
  waitForRedis_loop 31 maxRetries retryDelay attempts w [WaitingForRedis].

(** Lines 294-321: [startServer], for the port of line 292. *)
Definition startServer (listen : Z) (w : world)
  : option Server.t * world * list startup_line :=
  match waitForRedis w with
  | (Ready, w1, out) =>
      (Some {| Server.port := listen; Server.fetch := app_fetch JSON_parse |}, w1,
       out ++ [ServerStarted listen])
  | (NotReady message, w1, out) =>
      (None, snd ((redis_disconnect;; process_exit 1) w1),
       out ++ [FailedToStart message])
  | (OutOfFuel, w1, out) => (None, w1, out)
  end.

(** ** The replica of the integration test *)

(** integration.test.ts, lines 56-99: the [try] of the handler that
    [createTestApp] registers. It has the loop and no provider key. *)
Definition test_try_block (debugKey correlationId site id : string) : js response :=
  transaction ← legacy_loop JSON_parse debugKey correlationId site id
                   TRANSACTION_TYPES JNull;
  if truthy transaction then found debugKey correlationId transaction
  else
    console_log (NotFoundInRedis debugKey correlationId id);;
    c_json (TransactionBody notFoundResponse) 200.

(** integration.test.ts, lines 48-111. *)
Definition test_payment_handler (site id : string) (req : request) : js response :=
  let debugKey := string_or (header req "x-debug-key") "N/A" in
  correlationId ←
    (match header req "x-correlation-id" with
     | Some h => if is_empty h then randomUUID else mret h
     | None => randomUUID
     end);
  console_log (Checking debugKey correlationId id site);;
  try_catch (test_try_block debugKey correlationId site id)
            (catch_block debugKey correlationId).

End Startup.

(** The [count] progress lines that start at attempt [first]. *)
Definition progress_lines (first count : Z) : list startup_line :=
  (λ attempts, Progress (progress attempts) attempts 30) <$> seqZ first count.

(** A store that stays as it is while the process sleeps, and one whose
    connection comes up meanwhile. *)
Definition stays (ms : Z) (w : world) : world := w.

Definition comes_up (ms : Z) (w : world) : world :=
  {| isShuttingDown := isShuttingDown w;
     redis := {| keyspace := keyspace (redis w); connected := true |};
     wire := wire w; console := console w; clock := clock w + ms; rtt := rtt w;
     entropy := entropy w; timers := timers w; exit_code := exit_code w |}.

(** ** Relations between the world before and after a run *)

(** [m] takes every world to one that [R] relates to it. *)
Definition respects {A : Type} (R : world → world → Prop) (m : js A) : Prop :=
  ∀ w, R w (snd (m w)).

Definition not_a_write (c : command) : bool :=
  match c with
  | SET _ _ => false
  | _ => true
  end.

(** The keys and their values are as they were, and nothing was written. *)
Definition store_kept (w w' : world) : Prop :=
  keyspace (redis w') = keyspace (redis w) ∧
  ∃ cmds, wire w' = wire w ++ cmds ∧ Forall (λ c, not_a_write c = true) cmds.

(** The console grew by lines that satisfy [P]. *)
Definition logged (P : log_event → bool) (w w' : world) : Prop :=
  ∃ lines, console w' = console w ++ lines ∧ Forall (λ e, P e = true) lines.

(** A line of the handler that carries [debugKey] and [correlationId]. *)
Definition tagged (debugKey correlationId : string) (e : log_event) : bool :=
  match e with
  | Checking dk cid _ _
  | FoundCompay dk cid _
  | FoundLegacy dk cid _ _
  | ParseFailed dk cid _
  | Returning dk cid _ _
  | NotFoundInRedis dk cid _
  | ErrorChecking dk cid _ => String.eqb dk debugKey && String.eqb cid correlationId
  | _ => false
  end.

(** No colon in a string. *)
Fixpoint no_colon (s : string) : bool :=
  match s with
  | EmptyString => true
  | String c r => negb (Ascii.eqb c ":"%char) && no_colon r
  end.

(** * Properties *)

(** ** What a run leaves of the world *)

Lemma evolves_refl w : evolves w w [].
Proof. unfold evolves. rewrite app_nil_r. tauto. Qed.

Lemma evolves_trans w1 w2 w3 c1 c2 :
  evolves w1 w2 c1 → evolves w2 w3 c2 → evolves w1 w3 (c1 ++ c2).
Proof.
  unfold evolves. intros (a1 & b1 & c1' & d1 & e1 & f1 & g1) (a2 & b2 & c2' & d2 & e2 & f2 & g2).
  rewrite a2, b2, c2', d2, e2, f2, g2, c1', app_assoc. tauto.
Qed.

Lemma evolves_log e w : evolves w (snd (console_log e w)) [].
Proof. unfold evolves. simpl. rewrite app_nil_r. tauto. Qed.

Lemma bind_run {A B : Type} (m : js A) (f : A → js B) w :
  (m ≫= f) w =
  match m w with
  | (Returned a, w') => f a w'
  | (Thrown e, w') => (Thrown e, w')
  end.
Proof. reflexivity. Qed.

(** [GET] reads: the server is as it was. *)
Lemma redis_exec_GET_pure key r : snd (redis_exec (GET key) r) = r.
Proof.
  unfold redis_exec. destruct (connected r); simpl; [| reflexivity].
  destruct (keyspace r !! key) as [[s|]|]; reflexivity.
Qed.

Lemma redis_get_run key w :
  fst (redis_get key w) = fetch (redis w) key ∧
  evolves w (snd (redis_get key w)) [GET key].
Proof.
  unfold redis_get, fetch, mbind, js_bind, redis_call, mret, js_ret.
  pose proof (redis_exec_GET_pure key (redis w)) as Hpure.
  destruct (redis_exec (GET key) (redis w)) as [o r]. simpl in *. subst r.
  destruct o as [rep|e]; simpl; (split; [try (destruct rep); reflexivity |]);
    unfold evolves; simpl; tauto.
Qed.

(** ** The lookup as a function of the store *)

Section Resolution.

Variable JSON_parse : string → option json.

(** One read and what follows it in the source: [if (data)], the [try]
    around [JSON.parse], the log line of either branch. *)
Lemma read_and_parse_run {B : Type} (ok : json → B) (ko : B)
    key found_line failed_line w :
  ∃ w',
    (data ← redis_get key;
     if data_truthy data then
       try_catch (t ← parse JSON_parse data; console_log found_line;; mret (ok t))
                 (λ parseError, console_log failed_line;; mret ko)
     else mret ko) w =
    (match probe_key JSON_parse (redis w) key with
     | Failed e => Thrown e
     | Parsed v => Returned (ok v)
     | Miss | Malformed => Returned ko
     end, w') ∧
    evolves w w' [GET key].
Proof.
  unfold mbind at 1, js_bind at 1.
  destruct (redis_get_run key w) as [Hres Hev].
  destruct (redis_get key w) as [o w1]. simpl in Hres, Hev.
  unfold probe_key. rewrite <- Hres.
  destruct o as [data|e]; [| by exists w1].
  destruct (data_truthy data) eqn:Htruthy; [| by exists w1].
  destruct data as [d|]; [| discriminate].
  unfold try_catch, mbind, js_bind, parse.
  destruct (JSON_parse d) as [v|]; simpl; eexists; (split; [reflexivity |]);
    unfold evolves in *; simpl; tauto.
Qed.

Lemma legacy_loop_run dk cid site id types transaction w :
  ∃ w',
    legacy_loop JSON_parse dk cid site id types transaction w =
      (fst (legacy_scan JSON_parse (redis w) site id types transaction), w') ∧
    evolves w w' (map GET (snd (legacy_scan JSON_parse (redis w) site id types transaction))).
Proof.
  revert w. induction types as [|type rest IH]; intros w.
  - exists w. split; [reflexivity | apply evolves_refl].
  - destruct (read_and_parse_run Some None (legacyKey type site id)
                (FoundLegacy dk cid id type)
                (ParseFailed dk cid (legacyKey type site id)) w)
      as (w1 & Hrun & Hev).
    assert (legacy_loop JSON_parse dk cid site id (type :: rest) transaction w =
            match probe_key JSON_parse (redis w) (legacyKey type site id) with
            | Failed e => (Thrown e, w1)
            | Parsed v => (Returned v, w1)
            | Miss | Malformed =>
                legacy_loop JSON_parse dk cid site id rest transaction w1
            end) as ->.
    { revert Hrun. simpl. rewrite !bind_run.
      destruct (redis_get (legacyKey type site id) w) as [[data|e] w0];
        [| by destruct (probe_key _ _); intros H; inversion H].
      destruct (data_truthy data).
      - rewrite bind_run. intros ->. by destruct (probe_key _ _).
      - by destruct (probe_key _ _); intros H; inversion H. }
    simpl. destruct (IH w1) as (w2 & Hloop & Hev2).
    assert (redis w1 = redis w) as Hr by apply Hev.
    rewrite Hr in Hloop, Hev2.
    destruct (probe_key JSON_parse (redis w) (legacyKey type site id)) as [e| | |v].
    + by exists w1.
    + exists w2. rewrite Hloop.
      destruct (legacy_scan _ _ _ _ rest _) as [o keys]. simpl in *.
      split; [reflexivity | exact (evolves_trans _ _ _ _ _ Hev Hev2)].
    + exists w2. rewrite Hloop.
      destruct (legacy_scan _ _ _ _ rest _) as [o keys]. simpl in *.
      split; [reflexivity | exact (evolves_trans _ _ _ _ _ Hev Hev2)].
    + by exists w1.
Qed.

Lemma find_transaction_run dk cid site id w :
  ∃ w',
    find_transaction JSON_parse dk cid site id w = (fst (scan JSON_parse (redis w) site id), w') ∧
    evolves w w' (map GET (snd (scan JSON_parse (redis w) site id))).
Proof.
  destruct (read_and_parse_run (λ t, t) JNull (providerKey id)
              (FoundCompay dk cid id)
              (ParseFailed dk cid (providerKey id)) w)
    as (w1 & Hrun & Hev).
  assert (find_transaction JSON_parse dk cid site id w =
          match probe_key JSON_parse (redis w) (providerKey id) with
          | Failed e => (Thrown e, w1)
          | Parsed v =>
              if truthy v then (Returned v, w1)
              else legacy_loop JSON_parse dk cid site id TRANSACTION_TYPES v w1
          | Miss | Malformed =>
              legacy_loop JSON_parse dk cid site id TRANSACTION_TYPES JNull w1
          end) as ->.
  { revert Hrun. unfold find_transaction. rewrite !bind_run.
    destruct (redis_get (providerKey id) w) as [[data|e] w0];
      [| by destruct (probe_key _ _); intros H; inversion H].
    destruct (data_truthy data).
    - rewrite bind_run. intros ->.
      destruct (probe_key _ _) as [e| | |v]; try reflexivity.
      by destruct (truthy v).
    - by destruct (probe_key _ _); intros H; inversion H. }
  assert (redis w1 = redis w) as Hr by apply Hev.
  unfold scan.
  destruct (probe_key JSON_parse (redis w) (providerKey id)) as [e| | |v].
  - by exists w1.
  - destruct (legacy_loop_run dk cid site id TRANSACTION_TYPES JNull w1)
      as (w2 & -> & Hev2). rewrite Hr in *.
    destruct (legacy_scan _ _ _ _ _ _) as [o keys]. exists w2.
    split; [reflexivity | exact (evolves_trans _ _ _ _ _ Hev Hev2)].
  - destruct (legacy_loop_run dk cid site id TRANSACTION_TYPES JNull w1)
      as (w2 & -> & Hev2). rewrite Hr in *.
    destruct (legacy_scan _ _ _ _ _ _) as [o keys]. exists w2.
    split; [reflexivity | exact (evolves_trans _ _ _ _ _ Hev Hev2)].
  - destruct (truthy v); [by exists w1 |].
    destruct (legacy_loop_run dk cid site id TRANSACTION_TYPES v w1)
      as (w2 & -> & Hev2). rewrite Hr in *.
    destruct (legacy_scan _ _ _ _ _ _) as [o keys]. exists w2.
    split; [reflexivity | exact (evolves_trans _ _ _ _ _ Hev Hev2)].
Qed.

Lemma try_block_run dk cid site id w :
  ∃ w',
    try_block JSON_parse dk cid site id w =
      (try_result (fst (scan JSON_parse (redis w) site id)), w') ∧
    evolves w w' (map GET (snd (scan JSON_parse (redis w) site id))).
Proof.
  unfold try_block. rewrite bind_run.
  destruct (find_transaction_run dk cid site id w) as (w1 & -> & Hev).
  destruct (fst (scan JSON_parse (redis w) site id)) as [t|e]; simpl; [| by exists w1].
  destruct (truthy t).
  - unfold found. rewrite bind_run. unfold lift.
    destruct (normalize_status (get_prop t "status")) as [st|e]; [| by exists w1].
    eexists. split; [reflexivity |].
    unfold evolves in *; simpl; tauto.
  - eexists. split; [reflexivity |].
    unfold evolves in *; simpl; tauto.
Qed.

Lemma payment_handler_run site id req w :
  ∃ w',
    payment_handler JSON_parse site id req w = (Returned (answer JSON_parse (redis w) site id), w') ∧
    evolves w w' (map GET (snd (scan JSON_parse (redis w) site id))).
Proof.
  unfold payment_handler. rewrite bind_run.
  set (dk := string_or (header req "x-debug-key") "N/A").
  assert (∃ cid, (match header req "x-correlation-id" with
                  | Some h => if is_empty h then randomUUID else mret h
                  | None => randomUUID
                  end) w = (Returned cid, w)) as [cid ->].
  { destruct (header req "x-correlation-id") as [h|]; [destruct (is_empty h) |];
      eexists; reflexivity. }
  rewrite bind_run. simpl. unfold try_catch.
  match goal with |- context [try_block _ _ _ _ _ ?x] => set (w0 := x) end.
  assert (evolves w w0 []) as Hev0
    by exact (evolves_log (Checking dk cid id site) w).
  destruct (try_block_run dk cid site id w0) as (w1 & -> & Hev1).
  assert (redis w0 = redis w) as Hr by apply Hev0. rewrite Hr in *.
  pose proof (evolves_trans _ _ _ _ _ Hev0 Hev1) as Hev. simpl in Hev.
  unfold answer.
  destruct (try_result _) as [res|e]; [by exists w1 |].
  eexists. split; [reflexivity |].
  unfold evolves in *; simpl; tauto.
Qed.

Lemma payment_handler_answer site id req w :
  fst (payment_handler JSON_parse site id req w) =
  Returned (answer JSON_parse (redis w) site id).
Proof. by destruct (payment_handler_run site id req w) as (w' & -> & _). Qed.

Lemma payment_handler_evolves site id req w :
  evolves w (snd (payment_handler JSON_parse site id req w))
    (map GET (snd (scan JSON_parse (redis w) site id))).
Proof. by destruct (payment_handler_run site id req w) as (w' & -> & ?). Qed.

Lemma payment_handler_wire site id req w :
  wire (snd (payment_handler JSON_parse site id req w)) =
  wire w ++ map GET (snd (scan JSON_parse (redis w) site id)).
Proof. apply payment_handler_evolves. Qed.

Lemma payment_handler_store site id req w :
  redis (snd (payment_handler JSON_parse site id req w)) = redis w.
Proof. apply payment_handler_evolves. Qed.

Lemma find_transaction_scan dk cid site id w :
  fst (find_transaction JSON_parse dk cid site id w) =
  fst (scan JSON_parse (redis w) site id).
Proof. by destruct (find_transaction_run dk cid site id w) as (w' & -> & _). Qed.

Lemma try_block_result dk cid site id w :
  fst (try_block JSON_parse dk cid site id w) =
  try_result (fst (scan JSON_parse (redis w) site id)).
Proof. by destruct (try_block_run dk cid site id w) as (w' & -> & _). Qed.

(** The keys read are the first candidates, in their order. *)
Lemma legacy_scan_keys r site id types transaction :
  snd (legacy_scan JSON_parse r site id types transaction)
    `prefix_of` map (λ type, legacyKey type site id) types.
Proof.
  induction types as [|type rest IH]; simpl; [done |].
  destruct (probe_key _ _ _);
    try (destruct (legacy_scan _ _ _ _ rest _); simpl in *; by apply prefix_cons);
    by apply prefix_cons, prefix_nil.
Qed.

Lemma scan_keys r site id :
  snd (scan JSON_parse r site id) `prefix_of` candidate_keys site id ∧
  snd (scan JSON_parse r site id) ≠ [].
Proof.
  unfold scan, candidate_keys.
  pose proof (legacy_scan_keys r site id TRANSACTION_TYPES) as Hk.
  destruct (probe_key _ _ _) as [e| | |v].
  - split; [by apply prefix_cons, prefix_nil | done].
  - specialize (Hk JNull). destruct (legacy_scan _ _ _ _ _ _). simpl in *.
    split; [by apply prefix_cons | done].
  - specialize (Hk JNull). destruct (legacy_scan _ _ _ _ _ _). simpl in *.
    split; [by apply prefix_cons | done].
  - destruct (truthy v); [split; [by apply prefix_cons, prefix_nil | done] |].
    specialize (Hk v). destruct (legacy_scan _ _ _ _ _ _). simpl in *.
    split; [by apply prefix_cons | done].
Qed.

(** No candidate is usable: the lookup throws or is left with a falsy
    value. *)
Lemma legacy_scan_unusable r site id types transaction :
  truthy transaction = false →
  forallb (λ key, negb (usable (probe_key JSON_parse r key)))
    (map (λ type, legacyKey type site id) types) = true →
  match fst (legacy_scan JSON_parse r site id types transaction) with
  | Returned t => truthy t = false
  | Thrown _ => True
  end.
Proof.
  intros Ht. induction types as [|type rest IH]; simpl; [done |].
  intros [Hhere Hrest]%andb_prop. specialize (IH Hrest).
  destruct (probe_key _ _ _) as [e| | |v]; simpl in *; try done.
  - by destruct (legacy_scan _ _ _ _ rest _).
  - by destruct (legacy_scan _ _ _ _ rest _).
  - by apply negb_true_iff.
Qed.

Lemma scan_unusable r site id :
  no_usable_record JSON_parse r site id = true →
  match fst (scan JSON_parse r site id) with
  | Returned t => truthy t = false
  | Thrown _ => True
  end.
Proof.
  unfold no_usable_record, candidate_keys, scan. simpl forallb.
  intros [Hhere Hrest]%andb_prop.
  pose proof (λ t Ht, legacy_scan_unusable r site id TRANSACTION_TYPES t Ht Hrest) as Hl.
  destruct (probe_key _ _ (providerKey id)) as [e| | |v]; simpl in Hhere.
  - done.
  - specialize (Hl JNull eq_refl). by destruct (legacy_scan _ _ _ _ _ _).
  - specialize (Hl JNull eq_refl). by destruct (legacy_scan _ _ _ _ _ _).
  - apply negb_true_iff in Hhere. rewrite Hhere.
    specialize (Hl v Hhere). by destruct (legacy_scan _ _ _ _ _ _).
Qed.

Lemma answer_unusable r site id :
  no_usable_record JSON_parse r site id = true →
  answer JSON_parse r site id =
  {| code := 200; content := TransactionBody notFoundResponse |}.
Proof.
  intros H%scan_unusable. unfold answer, try_result.
  destruct (fst (scan JSON_parse r site id)) as [t|e]; [| done].
  by rewrite H.
Qed.

Lemma answer_thrown r site id e :
  try_result (fst (scan JSON_parse r site id)) = Thrown e →
  answer JSON_parse r site id =
  {| code := 200; content := TransactionBody notFoundResponse |}.
Proof. unfold answer. by intros ->. Qed.

(** Every answer of the handler is a 200 with an envelope whose
    [status] is [true] and whose [message] is empty. *)
Lemma answer_envelope r site id :
  ∃ envelope,
    answer JSON_parse r site id =
      {| code := 200; content := TransactionBody envelope |} ∧
    status envelope = true ∧ message envelope = empty.
Proof.
  unfold answer, try_result.
  destruct (fst (scan JSON_parse r site id)) as [t|e]; [| by eexists].
  destruct (truthy t); [| by eexists].
  destruct (normalize_status _); by eexists.
Qed.


Lemma probe_key_absent r key :
  connected r = true →
  keyspace r !! key = None →
  probe_key JSON_parse r key = Miss.
Proof.
  intros Hc Hk. unfold probe_key, fetch, redis_exec. by rewrite Hc, Hk.
Qed.

Lemma try_result_alike o o' : alike o o' → try_result o = try_result o'.
Proof.
  intros [-> | (t & t' & -> & -> & Ht & Ht')]; [done |].
  unfold try_result. by rewrite Ht, Ht'.
Qed.

Lemma legacy_scan_alike r r' site id types t t' :
  (∀ type, interchangeable (probe_key JSON_parse r (legacyKey type site id))
                           (probe_key JSON_parse r' (legacyKey type site id))) →
  t = t' ∨ (truthy t = false ∧ truthy t' = false) →
  alike (fst (legacy_scan JSON_parse r site id types t))
        (fst (legacy_scan JSON_parse r' site id types t')) ∧
  snd (legacy_scan JSON_parse r site id types t) =
  snd (legacy_scan JSON_parse r' site id types t').
Proof.
  intros Hkeys Ht. induction types as [|type rest IH]; simpl.
  - split; [| done].
    destruct Ht as [-> | [? ?]]; [by left | by right; exists t, t'].
  - destruct (legacy_scan JSON_parse r site id rest t) as [o keys].
    destruct (legacy_scan JSON_parse r' site id rest t') as [o' keys'].
    destruct IH as [IHo IHk]. simpl in IHo, IHk. subst keys'.
    destruct (Hkeys type) as [<- | [Hp Hq]].
    + destruct (probe_key JSON_parse r (legacyKey type site id));
        simpl; split; try done; by left.
    + destruct (probe_key JSON_parse r (legacyKey type site id));
        destruct (probe_key JSON_parse r' (legacyKey type site id));
        try discriminate; simpl; by split.
Qed.

Lemma scan_alike r r' site id :
  interchangeable_first (probe_key JSON_parse r (providerKey id))
                        (probe_key JSON_parse r' (providerKey id)) →
  (∀ type, interchangeable (probe_key JSON_parse r (legacyKey type site id))
                           (probe_key JSON_parse r' (legacyKey type site id))) →
  alike (fst (scan JSON_parse r site id)) (fst (scan JSON_parse r' site id)) ∧
  snd (scan JSON_parse r site id) = snd (scan JSON_parse r' site id).
Proof.
  intros Hfirst Hkeys. unfold scan.
  pose proof (λ t t', legacy_scan_alike r r' site id TRANSACTION_TYPES t t' Hkeys) as Hl.
  assert (∀ t t', t = t' ∨ (truthy t = false ∧ truthy t' = false) →
    alike (fst (let (o, keys) := legacy_scan JSON_parse r site id TRANSACTION_TYPES t in
                (o, providerKey id :: keys)))
          (fst (let (o, keys) := legacy_scan JSON_parse r' site id TRANSACTION_TYPES t' in
                (o, providerKey id :: keys))) ∧
    snd (let (o, keys) := legacy_scan JSON_parse r site id TRANSACTION_TYPES t in
         (o, providerKey id :: keys)) =
    snd (let (o, keys) := legacy_scan JSON_parse r' site id TRANSACTION_TYPES t' in
         (o, providerKey id :: keys))) as Hgo.
  { intros t t' Ht. destruct (Hl t t' Ht) as [Ho Hk].
    destruct (legacy_scan JSON_parse r site id TRANSACTION_TYPES t).
    destruct (legacy_scan JSON_parse r' site id TRANSACTION_TYPES t').
    simpl in *. by subst. }
  destruct Hfirst as [<- | [Hp Hq]].
  - destruct (probe_key JSON_parse r (providerKey id)) as [e| | |v].
    + split; [by left | done].
    + apply Hgo. by left.
    + apply Hgo. by left.
    + destruct (truthy v); [split; [by left | done] |]. apply Hgo. by left.
  - destruct (probe_key JSON_parse r (providerKey id)) as [e| | |v];
      destruct (probe_key JSON_parse r' (providerKey id)) as [e'| | |v'];
      try discriminate; simpl in Hp, Hq;
      repeat match goal with
             | H : negb (truthy ?x) = true |- _ =>
                 apply negb_true_iff in H; rewrite H
             end;
      apply Hgo; (by left) || (by right).
Qed.

Lemma answer_alike r r' site id :
  alike (fst (scan JSON_parse r site id)) (fst (scan JSON_parse r' site id)) →
  answer JSON_parse r site id = answer JSON_parse r' site id.
Proof. intros H%try_result_alike. unfold answer. by rewrite H. Qed.

(** A lookup that ends in the not-found branch has found nothing under
    any key it read. *)
Lemma legacy_scan_absent r site id types transaction t :
  fst (legacy_scan JSON_parse r site id types transaction) = Returned t →
  truthy t = false →
  Forall (λ key, nothing_found (probe_key JSON_parse r key) = true)
    (snd (legacy_scan JSON_parse r site id types transaction)).
Proof.
  induction types as [|type rest IH]; simpl; [by constructor |].
  destruct (probe_key JSON_parse r (legacyKey type site id)) as [e| | |v] eqn:Hp.
  - discriminate.
  - destruct (legacy_scan _ _ _ _ rest _); simpl in *.
    intros Ho Ht. constructor; [by rewrite Hp | by apply IH].
  - destruct (legacy_scan _ _ _ _ rest _); simpl in *.
    intros Ho Ht. constructor; [by rewrite Hp | by apply IH].
  - simpl. intros [= ->] Ht. constructor; [| by constructor].
    rewrite Hp. simpl. by rewrite Ht.
Qed.

Lemma scan_absent r site id t :
  fst (scan JSON_parse r site id) = Returned t →
  truthy t = false →
  Forall (λ key, nothing_found (probe_key JSON_parse r key) = true)
    (snd (scan JSON_parse r site id)).
Proof.
  unfold scan.
  pose proof (λ t0, legacy_scan_absent r site id TRANSACTION_TYPES t0 t) as Hl.
  destruct (probe_key JSON_parse r (providerKey id)) as [e| | |v] eqn:Hp.
  - discriminate.
  - specialize (Hl JNull). destruct (legacy_scan _ _ _ _ _ _); simpl in *.
    intros Ho Ht. constructor; [by rewrite Hp | by apply Hl].
  - specialize (Hl JNull). destruct (legacy_scan _ _ _ _ _ _); simpl in *.
    intros Ho Ht. constructor; [by rewrite Hp | by apply Hl].
  - destruct (truthy v) eqn:Hv.
    + simpl. intros [= ->] Ht. congruence.
    + specialize (Hl v). destruct (legacy_scan _ _ _ _ _ _); simpl in *.
      intros Ho Ht. constructor; [by rewrite Hp; simpl; rewrite Hv | by apply Hl].
Qed.

(** A read depends on the connection and on the key read. *)
Lemma fetch_ext r r' key :
  connected r = connected r' →
  keyspace r !! key = keyspace r' !! key →
  fetch r key = fetch r' key.
Proof.
  unfold fetch, redis_exec. intros -> ->.
  destruct (connected r'); simpl; [| done].
  by destruct (keyspace r' !! key) as [[s|]|].
Qed.

(** Deleting a key changes what that key holds and nothing else. *)
Lemma probe_forget_other key key' w :
  key' ≠ key →
  probe_key JSON_parse (redis (forget key w)) key' =
  probe_key JSON_parse (redis w) key'.
Proof.
  intros Hne. unfold probe_key.
  rewrite (fetch_ext (redis (forget key w)) (redis w) key'); [done | done |].
  simpl. by apply lookup_delete_ne.
Qed.

Lemma probe_forget_same key d w :
  keyspace (redis w) !! key = Some (RString d) →
  probe_key JSON_parse (redis (forget key w)) key =
    (if connected (redis w) then Miss
     else Failed (RedisError "Connection is closed.")) ∧
  probe_key JSON_parse (redis w) key =
    (if connected (redis w) then
       if is_empty d then Miss
       else match JSON_parse d with Some v => Parsed v | None => Malformed end
     else Failed (RedisError "Connection is closed.")).
Proof.
  intros Hk. unfold probe_key, fetch, redis_exec, forget. simpl.
  rewrite lookup_delete_eq, Hk.
  destruct (connected (redis w)); simpl; [| done].
  by destruct (is_empty d).
Qed.

Lemma legacyKey_not_providerKey type site id id' :
  legacyKey type site id ≠ providerKey id'.
Proof. unfold legacyKey, providerKey, KEY_PREFIX. simpl. discriminate. Qed.

Lemma handler_alike site id req w w' :
  wire w' = wire w →
  interchangeable_first (probe_key JSON_parse (redis w') (providerKey id))
                        (probe_key JSON_parse (redis w) (providerKey id)) →
  (∀ type, interchangeable (probe_key JSON_parse (redis w') (legacyKey type site id))
                           (probe_key JSON_parse (redis w) (legacyKey type site id))) →
  fst (payment_handler JSON_parse site id req w') =
    fst (payment_handler JSON_parse site id req w) ∧
  wire (snd (payment_handler JSON_parse site id req w')) =
    wire (snd (payment_handler JSON_parse site id req w)).
Proof.
  intros Hw Hfirst Hkeys.
  destruct (scan_alike (redis w') (redis w) site id Hfirst Hkeys) as [Ho Hk].
  rewrite !payment_handler_answer, !payment_handler_wire, Hw, Hk.
  by rewrite (answer_alike _ _ _ _ Ho).
Qed.

(** A value that does not parse: the key may as well be absent. *)
Lemma malformed_interchangeable key d w key' :
  keyspace (redis w) !! key = Some (RString d) →
  JSON_parse d = None →
  interchangeable (probe_key JSON_parse (redis (forget key w)) key')
                  (probe_key JSON_parse (redis w) key').
Proof.
  intros Hk Hd. destruct (decide (key' = key)) as [-> | Hne].
  - destruct (probe_forget_same key d w Hk) as [-> ->]. rewrite Hd.
    destruct (connected (redis w)); [| by left].
    right. by destruct (is_empty d).
  - left. by apply probe_forget_other.
Qed.

(** A falsy value under the provider key: the lookup goes on as after a
    miss. *)
Lemma falsy_interchangeable_first id d v w :
  keyspace (redis w) !! providerKey id = Some (RString d) →
  JSON_parse d = Some v →
  truthy v = false →
  interchangeable_first
    (probe_key JSON_parse (redis (forget (providerKey id) w)) (providerKey id))
    (probe_key JSON_parse (redis w) (providerKey id)).
Proof.
  intros Hk Hd Hv.
  destruct (probe_forget_same (providerKey id) d w Hk) as [-> ->]. rewrite Hd.
  destruct (connected (redis w)); [| by left].
  right. destruct (is_empty d); simpl; [done | by rewrite Hv].
Qed.

(** A value that parses under a legacy key ends the loop there. *)
Lemma legacy_scan_stops r site id pre type post transaction v :
  Forall (λ ty, miss_or_malformed (probe_key JSON_parse r (legacyKey ty site id)) = true) pre →
  probe_key JSON_parse r (legacyKey type site id) = Parsed v →
  legacy_scan JSON_parse r site id (pre ++ type :: post) transaction =
  (Returned v, map (λ ty, legacyKey ty site id) (pre ++ [type])).
Proof.
  intros Hpre Hp. induction Hpre as [|ty pre Hty _ IH]; simpl.
  - by rewrite Hp.
  - rewrite IH. by destruct (probe_key JSON_parse r (legacyKey ty site id)).
Qed.

End Resolution.

(** ** The status normaliser *)






(** ** Reads *)

Lemma reads_scan JSON_parse site id req w :
  reads JSON_parse site id req w =
  length (snd (scan JSON_parse (redis w) site id)).
Proof.
  unfold reads. rewrite payment_handler_wire, length_app, length_map. lia.
Qed.

(** C6, as the code has it. A request to the business endpoint makes
    at least one and at most four sequential reads: the keys read are
    the first candidates, in order (the provider key, then the legacy
    keys of deposit, withdraw and settlement), and nothing but [GET] is
    sent. *)
Theorem C6_at_most_four_reads JSON_parse site id req w :
  (1 ≤ reads JSON_parse site id req w ≤ 4)%nat ∧
  ∃ keys,
    wire (snd (payment_handler JSON_parse site id req w)) = wire w ++ map GET keys ∧
    keys `prefix_of` candidate_keys site id.
Proof.
  destruct (scan_keys JSON_parse (redis w) site id) as [Hprefix Hne].
  split.
  - rewrite reads_scan. apply prefix_length in Hprefix.
    unfold candidate_keys, TRANSACTION_TYPES in Hprefix. simpl in Hprefix.
    revert Hprefix Hne.
    destruct (snd (scan JSON_parse (redis w) site id)); simpl; [done | lia].
  - eexists. split; [apply payment_handler_wire | exact Hprefix].
Qed.

(** C6, as stated, fails: over the empty store one request makes four
    reads. *)
Lemma C6_two_reads_exceeded :
  ¬ (∀ JSON_parse site id req w, (reads JSON_parse site id req w ≤ 2)%nat).
Proof.
  intros H. specialize (H example_parse "s" "i" (post "s" "i") (boot [])).
  vm_compute in H. lia.
Qed.

(** ** Determinism *)

(** C7. The response of the business endpoint is a function of the
    store, [site] and [id]: the headers of the request, the console, the
    clock and the random identifier have no part in it; a lookup leaves
    the store as it found it; and a second lookup, whatever its headers,
    answers as the first did. *)
Theorem C7_response_function_of_store JSON_parse :
  ∃ f : redis_state → string → string → response,
    ∀ site id req w,
      fst (payment_handler JSON_parse site id req w) = Returned (f (redis w) site id) ∧
      redis (snd (payment_handler JSON_parse site id req w)) = redis w ∧
      ∀ req',
        fst (payment_handler JSON_parse site id req'
               (snd (payment_handler JSON_parse site id req w))) =
        fst (payment_handler JSON_parse site id req w).
Proof.
  exists (answer JSON_parse). intros site id req w.
  split; [apply payment_handler_answer |].
  split; [apply payment_handler_store |].
  intros req'. rewrite !payment_handler_answer.
  by rewrite payment_handler_store.
Qed.

(** ** Misses and failures *)

(** C1. When no candidate key yields a usable record (every read
    misses, or what is read is empty, does not parse or parses to a falsy
    value), and when the [try] block raises an exception, the business
    endpoint answers 200 with [{status: true, message: '', data: {status:
    'pending', amount: 0}}]. *)
Theorem C1_miss_or_failure_answers_pending JSON_parse site id req w :
  no_usable_record JSON_parse (redis w) site id = true ∨
  (∃ dk cid e, fst (try_block JSON_parse dk cid site id w) = Thrown e) →
  fst (payment_handler JSON_parse site id req w) =
  Returned {| code := 200; content := TransactionBody notFoundResponse |}.
Proof.
  rewrite payment_handler_answer. intros [H | (dk & cid & e & H)].
  - by rewrite answer_unusable.
  - rewrite try_block_result in H. by rewrite (answer_thrown _ _ _ _ e).
Qed.

(** C1 at work: over the empty store, and over a store that cannot be
    reached. *)
Lemma C1_witness :
  fst (payment_handler example_parse "s" "i" (post "s" "i") (boot [])) =
    Returned {| code := 200; content := TransactionBody notFoundResponse |} ∧
  fst (payment_handler example_parse "s" "i" (post "s" "i") (unreachable [])) =
    Returned {| code := 200; content := TransactionBody notFoundResponse |}.
Proof.
  split; apply C1_miss_or_failure_answers_pending.
  - left. vm_compute. reflexivity.
  - right. exists "N/A", "c", (RedisError "Connection is closed.").
    vm_compute. reflexivity.
Defined.

(** C10. A found record whose status is a truthy value that is not a
    string makes the [try] block throw a [TypeError], and the handler
    still answers 200 with the pending envelope; and whatever the store
    holds, the handler returns: a 200 with an envelope, never an
    exception. *)
Theorem C10_handler_total JSON_parse :
  (∀ site id req w dk cid t v,
     fst (find_transaction JSON_parse dk cid site id w) = Returned t →
     truthy t = true →
     get_prop t "status" = Some v →
     truthy v = true →
     (∀ s, v ≠ JStr s) →
     fst (try_block JSON_parse dk cid site id w) = Thrown TypeError ∧
     fst (payment_handler JSON_parse site id req w) =
       Returned {| code := 200; content := TransactionBody errorResponse |}) ∧
  (∀ site id req w,
     ∃ envelope,
       fst (payment_handler JSON_parse site id req w) =
         Returned {| code := 200; content := TransactionBody envelope |} ∧
       status envelope = true ∧ message envelope = empty).
Proof.
  split.
  - intros site id req w dk cid t v Hfound Ht Hstatus Hv Hnot.
    rewrite find_transaction_scan in Hfound.
    assert (try_result (fst (scan JSON_parse (redis w) site id)) = Thrown TypeError)
      as Hthrow.
    { rewrite Hfound. unfold try_result. rewrite Ht, Hstatus.
      destruct v as [|b|n|s| |]; try done. by destruct (Hnot s). }
    split; [by rewrite try_block_result |].
    rewrite payment_handler_answer. by rewrite (answer_thrown _ _ _ _ TypeError).
  - intros site id req w. rewrite payment_handler_answer.
    destruct (answer_envelope JSON_parse (redis w) site id) as (envelope & -> & ?).
    by exists envelope.
Qed.

(** C10 at work: the provider key holds [{"status":5,"amount":300}]. *)
Lemma C10_witness :
  fst (try_block example_parse "N/A" "c" "s" "i"
         (boot [(providerKey "i", record_text "5" "300")])) = Thrown TypeError ∧
  fst (payment_handler example_parse "s" "i" (post "s" "i")
         (boot [(providerKey "i", record_text "5" "300")])) =
    Returned {| code := 200; content := TransactionBody errorResponse |}.
Proof.
  apply (proj1 (C10_handler_total example_parse) "s" "i" (post "s" "i")
           (boot [(providerKey "i", record_text "5" "300")]) "N/A" "c"
           (JObj [("status", JNum 5); ("amount", JNum 300)]) (JNum 5)).
  - vm_compute. reflexivity.
  - reflexivity.
  - reflexivity.
  - reflexivity.
  - intros s. discriminate.
Defined.

(** ** Key priority *)



(** ** The amount *)




(** ** Values that do not parse *)

(** C4, as the code has it. A value that does not parse counts as a
    miss: with the key deleted instead, the handler answers the same and
    reads the same keys. When every candidate misses or does not parse,
    the handler reads the four keys in order (the provider key, then
    deposit, withdraw, settlement) and ends in the not-found branch. It
    ends in that branch only when every key it read missed, did not parse
    or parsed to a falsy value. *)
Theorem C4_malformed_is_a_miss JSON_parse site id req w :
  (∀ key d,
     keyspace (redis w) !! key = Some (RString d) →
     JSON_parse d = None →
     fst (payment_handler JSON_parse site id req (forget key w)) =
       fst (payment_handler JSON_parse site id req w) ∧
     wire (snd (payment_handler JSON_parse site id req (forget key w))) =
       wire (snd (payment_handler JSON_parse site id req w))) ∧
  (forallb (λ key, miss_or_malformed (probe_key JSON_parse (redis w) key))
     (candidate_keys site id) = true →
   (∀ dk cid, declares_absent JSON_parse dk cid site id w) ∧
   fst (payment_handler JSON_parse site id req w) =
     Returned {| code := 200; content := TransactionBody notFoundResponse |} ∧
   wire (snd (payment_handler JSON_parse site id req w)) =
     wire w ++ map GET (candidate_keys site id)) ∧
  (∀ dk cid,
     declares_absent JSON_parse dk cid site id w →
     ∃ keys,
       wire (snd (payment_handler JSON_parse site id req w)) = wire w ++ map GET keys ∧
       Forall (λ key, nothing_found (probe_key JSON_parse (redis w) key) = true) keys).
Proof.
  split; [| split].
  - intros key d Hk Hd. apply handler_alike; [done | |].
    + destruct (malformed_interchangeable JSON_parse key d w (providerKey id) Hk Hd)
        as [-> | [Hp Hq]]; [by left | right].
      split; [by destruct (probe_key _ (redis (forget key w)) _)
             | by destruct (probe_key _ (redis w) _)].
    + intros type. by apply (malformed_interchangeable JSON_parse key d).
  - unfold candidate_keys, TRANSACTION_TYPES. simpl forallb.
    intros H. apply andb_prop in H as [H0 H]. apply andb_prop in H as [H1 H].
    apply andb_prop in H as [H2 H]. apply andb_prop in H as [H3 _].
    assert (scan JSON_parse (redis w) site id =
            (Returned JNull, candidate_keys site id)) as Hscan.
    { unfold scan, TRANSACTION_TYPES, legacy_scan.
      destruct (probe_key _ _ (providerKey id)); try done;
      destruct (probe_key _ _ (legacyKey "deposit" site id)); try done;
      destruct (probe_key _ _ (legacyKey "withdraw" site id)); try done;
      by destruct (probe_key _ _ (legacyKey "settlement" site id)). }
    split; [| split].
    + intros dk cid. exists JNull. by rewrite find_transaction_scan, Hscan.
    + rewrite payment_handler_answer. unfold answer. by rewrite Hscan.
    + by rewrite payment_handler_wire, Hscan.
  - intros dk cid (t & Hfound & Ht). rewrite find_transaction_scan in Hfound.
    eexists. split; [apply payment_handler_wire |].
    by apply (scan_absent JSON_parse _ _ _ t).
Qed.

(** C4 at work: the provider key of [i] holds [{oops]. *)
Lemma C4_witness :
  (fst (payment_handler example_parse "s" "i" (post "s" "i")
          (forget (providerKey "i") (boot [(providerKey "i", "{oops")]))) =
   fst (payment_handler example_parse "s" "i" (post "s" "i")
          (boot [(providerKey "i", "{oops")]))) ∧
  wire (snd (payment_handler example_parse "s" "i" (post "s" "i")
               (boot [(providerKey "i", "{oops")]))) =
    map GET (candidate_keys "s" "i").
Proof.
  pose proof (C4_malformed_is_a_miss example_parse "s" "i" (post "s" "i")
                (boot [(providerKey "i", "{oops")])) as (Hmiss & Hall & _).
  split.
  - apply (Hmiss (providerKey "i") "{oops"); vm_compute; reflexivity.
  - apply Hall. vm_compute. reflexivity.
Defined.

(** C4, as stated, fails: the provider key holds [{oops], the deposit key
    [null] and the withdraw key a record. The malformed value is passed
    over, and the handler ends in the not-found branch although the
    deposit key and the withdraw key neither miss nor are malformed. *)
Lemma C4_absent_with_a_parsed_value :
  ¬ (∀ JSON_parse site id w dk cid,
       declares_absent JSON_parse dk cid site id w →
       forallb (λ key, miss_or_malformed (probe_key JSON_parse (redis w) key))
         (candidate_keys site id) = true).
Proof.
  intros H.
  specialize (H example_parse "s" "i"
    (boot [(providerKey "i", "{oops");
           (legacyKey "deposit" "s" "i", "null");
           (legacyKey "withdraw" "s" "i", record_text (quoted "SUCCESS") "100")])
    "N/A" "c").
  assert (declares_absent example_parse "N/A" "c" "s" "i"
    (boot [(providerKey "i", "{oops");
           (legacyKey "deposit" "s" "i", "null");
           (legacyKey "withdraw" "s" "i", record_text (quoted "SUCCESS") "100")]))
    as Habsent.
  { exists JNull. vm_compute. by split. }
  apply H in Habsent. vm_compute in Habsent. discriminate.
Qed.

(** ** Values that parse to a falsy value *)

(** C9, as the code has it. A falsy value is never a found record: a
    lookup left with one ends in the not-found answer. Under the provider
    key a value that parses to a falsy value counts as a miss: with the
    key deleted instead, the handler answers the same and reads the same
    keys. Under a legacy key it ends the loop: when the lookup reaches
    that key, the later legacy keys are not read and the answer is the
    not-found one. *)
Theorem C9_falsy_value_is_not_a_record JSON_parse site id req w :
  (∀ dk cid t,
     fst (find_transaction JSON_parse dk cid site id w) = Returned t →
     truthy t = false →
     fst (payment_handler JSON_parse site id req w) =
       Returned {| code := 200; content := TransactionBody notFoundResponse |}) ∧
  (∀ d v,
     keyspace (redis w) !! providerKey id = Some (RString d) →
     JSON_parse d = Some v →
     truthy v = false →
     fst (payment_handler JSON_parse site id req (forget (providerKey id) w)) =
       fst (payment_handler JSON_parse site id req w) ∧
     wire (snd (payment_handler JSON_parse site id req (forget (providerKey id) w))) =
       wire (snd (payment_handler JSON_parse site id req w))) ∧
  (∀ pre type post v,
     TRANSACTION_TYPES = pre ++ type :: post →
     nothing_found (probe_key JSON_parse (redis w) (providerKey id)) = true →
     Forall (λ ty, miss_or_malformed
                     (probe_key JSON_parse (redis w) (legacyKey ty site id)) = true) pre →
     probe_key JSON_parse (redis w) (legacyKey type site id) = Parsed v →
     truthy v = false →
     fst (payment_handler JSON_parse site id req w) =
       Returned {| code := 200; content := TransactionBody notFoundResponse |} ∧
     wire (snd (payment_handler JSON_parse site id req w)) =
       wire w ++ map GET (providerKey id ::
                          map (λ ty, legacyKey ty site id) (pre ++ [type]))).
Proof.
  split; [| split].
  - intros dk cid t Hfound Ht. rewrite find_transaction_scan in Hfound.
    rewrite payment_handler_answer. unfold answer, try_result.
    by rewrite Hfound, Ht.
  - intros d v Hk Hd Hv. apply handler_alike; [done | |].
    + by apply (falsy_interchangeable_first JSON_parse id d v).
    + intros type. left. apply probe_forget_other, legacyKey_not_providerKey.
  - intros pre type post v Htypes Hfirst Hpre Hp Hv.
    assert (scan JSON_parse (redis w) site id =
            (Returned v, providerKey id ::
                         map (λ ty, legacyKey ty site id) (pre ++ [type]))) as Hscan.
    { unfold scan. rewrite Htypes.
      destruct (probe_key JSON_parse (redis w) (providerKey id)) as [e| | |v0];
        simpl in Hfirst; try discriminate;
        try (apply negb_true_iff in Hfirst; rewrite Hfirst);
        by rewrite (legacy_scan_stops JSON_parse _ _ _ pre type post _ v Hpre Hp). }
    split.
    + rewrite payment_handler_answer. unfold answer, try_result.
      by rewrite Hscan; simpl; rewrite Hv.
    + by rewrite payment_handler_wire, Hscan.
Qed.

(** C9 at work: [null] under the provider key with a record under the
    deposit key; and [null] under the deposit key with a record under
    the withdraw key. *)
Lemma C9_witness :
  (fst (payment_handler example_parse "s" "i" (post "s" "i")
          (forget (providerKey "i")
             (boot [(providerKey "i", "null");
                    (legacyKey "deposit" "s" "i", record_text (quoted "pending") "500")]))) =
   fst (payment_handler example_parse "s" "i" (post "s" "i")
          (boot [(providerKey "i", "null");
                 (legacyKey "deposit" "s" "i", record_text (quoted "pending") "500")]))) ∧
  wire (snd (payment_handler example_parse "s" "i" (post "s" "i")
               (boot [(legacyKey "deposit" "s" "i", "null");
                      (legacyKey "withdraw" "s" "i", record_text (quoted "SUCCESS") "100")]))) =
    [GET (providerKey "i"); GET (legacyKey "deposit" "s" "i")].
Proof.
  split.
  - apply (proj1 (proj2 (C9_falsy_value_is_not_a_record example_parse "s" "i" (post "s" "i")
             (boot [(providerKey "i", "null");
                    (legacyKey "deposit" "s" "i", record_text (quoted "pending") "500")])))
             "null" JNull); vm_compute; reflexivity.
  - apply (proj2 (proj2 (C9_falsy_value_is_not_a_record example_parse "s" "i" (post "s" "i")
             (boot [(legacyKey "deposit" "s" "i", "null");
                    (legacyKey "withdraw" "s" "i", record_text (quoted "SUCCESS") "100")])))
             [] "deposit" ["withdraw"; "settlement"] JNull);
      try (vm_compute; reflexivity). constructor.
Defined.

(** C9, as stated, fails: [null] under the deposit key hides the record
    under the withdraw key, which the handler would answer from if the
    deposit key were a miss. *)
Lemma C9_falsy_legacy_value_hides_later_keys :
  ¬ (∀ JSON_parse site id req w key d v,
       keyspace (redis w) !! key = Some (RString d) →
       JSON_parse d = Some v →
       truthy v = false →
       fst (payment_handler JSON_parse site id req (forget key w)) =
       fst (payment_handler JSON_parse site id req w)).
Proof.
  intros H.
  specialize (H example_parse "s" "i" (post "s" "i")
    (boot [(legacyKey "deposit" "s" "i", "null");
           (legacyKey "withdraw" "s" "i", record_text (quoted "SUCCESS") "100")])
    (legacyKey "deposit" "s" "i") "null" JNull).
  vm_compute in H. specialize (H eq_refl eq_refl eq_refl). discriminate.
Qed.

(** ** Shutdown *)

Section Shutdown.

Variable JSON_parse : string → option json.


(** With the flag set, a request gets as far as the guard, unless it is
    a preflight, which [cors] answers before. *)
Lemma app_fetch_draining req w :
  isShuttingDown w = true →
  fst (app_fetch JSON_parse req w) =
    Returned (match req_method req with
              | MOptions => {| code := 204; content := NoBody |}
              | _ => {| code := 503; content := ShuttingDownBody (clock w) |}
              end) ∧
  evolves w (snd (app_fetch JSON_parse req w)) [].
Proof.
  intros Hflag.
  unfold app_fetch, logger, cors, shutdown_guard, read_isShuttingDown, Date_now, c_json.
  rewrite !bind_run. simpl. rewrite !bind_run. simpl.
  destruct (req_method req); simpl; rewrite ?Hflag; simpl;
    (split; [reflexivity |]); unfold evolves; simpl;
    rewrite ?Hflag, ?app_nil_r; tauto.
Qed.






End Shutdown.




(** ** The cases of the integration tests *)

Example deposit_pending_500 :
  fst (app_fetch example_parse (post "integration-test" "int-test-123")
         (boot [(legacyKey "deposit" "integration-test" "int-test-123",
                 record_text (quoted "pending") "500")])) =
  Returned {| code := 200;
              content := TransactionBody
                {| status := true; message := empty;
                   data := {| Data.status := "pending"; Data.amount := JNum 500 |} |} |}.
Proof. vm_compute. reflexivity. Qed.

Example created_is_pending :
  fst (app_fetch example_parse (post "integration-test" "status-test-0")
         (boot [(legacyKey "deposit" "integration-test" "status-test-0",
                 record_text (quoted "created") "500")])) =
  Returned {| code := 200;
              content := TransactionBody
                {| status := true; message := empty;
                   data := {| Data.status := "pending"; Data.amount := JNum 500 |} |} |}.
Proof. vm_compute. reflexivity. Qed.

Example non_existent_is_pending :
  fst (app_fetch example_parse (post "integration-test" "non-existent-xyz") (boot [])) =
  Returned {| code := 200; content := TransactionBody notFoundResponse |}.
Proof. vm_compute. reflexivity. Qed.

(** The flow of the first integration test: [redis.set], then the call. *)
Example set_then_check :
  fst ((redis_call (SET (legacyKey "deposit" "integration-test" "int-test-123")
                        (record_text (quoted "pending") "500"));;
        app_fetch example_parse (post "integration-test" "int-test-123")) (boot [])) =
  Returned {| code := 200;
              content := TransactionBody
                {| status := true; message := empty;
                   data := {| Data.status := "pending"; Data.amount := JNum 500 |} |} |}.
Proof. vm_compute. reflexivity. Qed.

(** * More of the file *)

(** ** Configuration *)




(** X3. The client reconnects after an error exactly when the message of
    the error has READONLY somewhere in it; an error without a message
    never makes it reconnect. *)
Theorem reconnectOnError_READONLY (message : string) :
  reconnectOnError None = false ∧
  (reconnectOnError (Some message) = true ↔
   ∃ n, String.substring n 8 message = "READONLY").
Proof.
  split; [reflexivity |].
  unfold reconnectOnError, includes.
  destruct (String.index 0 "READONLY" message) as [m|] eqn:Hindex.
  - split; [| done]. intros _. exists m.
    exact (String.index_correct1 _ _ _ _ Hindex).
  - split; [done |]. intros [n Hn].
    by destruct (String.index_correct3 0 n "READONLY" message Hindex ltac:(done)
                   ltac:(apply Nat.le_0_l)).
Qed.

(** ** Keys *)

Lemma append_cancel_l (s x y : string) : s +:+ x = s +:+ y → x = y.
Proof. induction s as [|c s IH]; simpl; [done |]. intros [= H]. by apply IH. Qed.

Lemma colon_split (a a' b b' : string) :
  no_colon a = true →
  no_colon a' = true →
  a +:+ ":" +:+ b = a' +:+ ":" +:+ b' →
  a = a' ∧ b = b'.
Proof.
  revert a'. induction a as [|c a IH]; intros [|c' a']; simpl.
  - intros _ _ [= H]. simpl in H. by subst.
  - intros _ Ha' [= Hc _]. rewrite <- Hc in Ha'. by rewrite Ascii.eqb_refl in Ha'.
  - intros Ha _ [= Hc _]. rewrite Hc in Ha. by rewrite Ascii.eqb_refl in Ha.
  - intros [_ Ha]%andb_prop [_ Ha']%andb_prop [= Hc H]. subst c'.
    by destruct (IH a' Ha Ha' H) as [-> ->].
Qed.

(** X4. Two legacy keys are the same only for the same type, site and
    id, as long as the types and the sites have no colon in them. *)
Theorem legacyKey_injective (type type' site site' id id' : string) :
  no_colon type = true →
  no_colon type' = true →
  no_colon site = true →
  no_colon site' = true →
  legacyKey type site id = legacyKey type' site' id' →
  type = type' ∧ site = site' ∧ id = id'.
Proof.
  intros Ht Ht' Hs Hs'. unfold legacyKey. intros H%append_cancel_l.
  apply append_cancel_l in H.
  destruct (colon_split _ _ _ _ Ht Ht' H) as [-> H'].
  by destruct (colon_split _ _ _ _ Hs Hs' H') as [-> ->].
Qed.

Lemma legacyKey_injective_witness :
  "deposit" = "deposit" ∧ "shop" = "shop" ∧ "tx:1" = "tx:1".
Proof.
  apply (legacyKey_injective "deposit" "deposit" "shop" "shop" "tx:1" "tx:1");
    reflexivity.
Defined.

Lemma append_assoc (a b c : string) : (a +:+ b) +:+ c = a +:+ b +:+ c.
Proof.
  induction a as [|x a IH]; [done |].
  change (String x ((a +:+ b) +:+ c) = String x (a +:+ b +:+ c)).
  by rewrite IH.
Qed.

(** The keys are built by joining with a colon, with no escaping: a colon
    may move from the site to the id. *)
Lemma legacyKey_collision (type a b c : string) :
  legacyKey type (a +:+ ":" +:+ b) c = legacyKey type a (b +:+ ":" +:+ c).
Proof. unfold legacyKey. by rewrite !append_assoc. Qed.

Section Keys.

Variable JSON_parse : string → option json.

Lemma legacy_scan_same_keys r site id site' id' types transaction :
  (∀ type, legacyKey type site id = legacyKey type site' id') →
  legacy_scan JSON_parse r site id types transaction =
  legacy_scan JSON_parse r site' id' types transaction.
Proof.
  intros Hkeys. induction types as [|type rest IH]; simpl; [done |].
  by rewrite IH, Hkeys.
Qed.

Lemma scan_first_nothing r site id :
  nothing_found (probe_key JSON_parse r (providerKey id)) = true →
  ∃ t, truthy t = false ∧
       fst (scan JSON_parse r site id) =
       fst (legacy_scan JSON_parse r site id TRANSACTION_TYPES t).
Proof.
  unfold scan. destruct (probe_key JSON_parse r (providerKey id)) as [e| | |v];
    intros H; simpl in H; try discriminate.
  - exists JNull. split; [done |].
    by destruct (legacy_scan JSON_parse r site id TRANSACTION_TYPES JNull).
  - exists JNull. split; [done |].
    by destruct (legacy_scan JSON_parse r site id TRANSACTION_TYPES JNull).
  - apply negb_true_iff in H. exists v. rewrite H. split; [done |].
    by destruct (legacy_scan JSON_parse r site id TRANSACTION_TYPES v).
Qed.

End Keys.

(** X5. Two requests whose sites and ids differ only in where a colon is
    cut, [(a:b, c)] and [(a, b:c)], read the same legacy keys: when
    neither provider key yields a record, both get the same answer. *)
Theorem colliding_requests_share_answer JSON_parse (a b c : string) req req' w :
  nothing_found (probe_key JSON_parse (redis w) (providerKey c)) = true →
  nothing_found (probe_key JSON_parse (redis w) (providerKey (b +:+ ":" +:+ c))) = true →
  fst (payment_handler JSON_parse (a +:+ ":" +:+ b) c req w) =
  fst (payment_handler JSON_parse a (b +:+ ":" +:+ c) req' w).
Proof.
  intros H1 H2. rewrite !payment_handler_answer.
  assert (alike (fst (scan JSON_parse (redis w) (a +:+ ":" +:+ b) c))
                (fst (scan JSON_parse (redis w) a (b +:+ ":" +:+ c)))) as Halike.
  { destruct (scan_first_nothing JSON_parse (redis w) (a +:+ ":" +:+ b) c H1)
      as (t1 & Ht1 & ->).
    destruct (scan_first_nothing JSON_parse (redis w) a (b +:+ ":" +:+ c) H2)
      as (t2 & Ht2 & ->).
    rewrite <- (legacy_scan_same_keys JSON_parse (redis w) (a +:+ ":" +:+ b) c
                  a (b +:+ ":" +:+ c) TRANSACTION_TYPES t2
                  (λ type, legacyKey_collision type a b c)).
    apply legacy_scan_alike; [by left | by right]. }
  unfold answer. by rewrite (try_result_alike _ _ Halike).
Qed.

(** X5 at work: a deposit stored for site [shop:eu] and id [7] is
    answered to site [shop], id [eu:7]. *)
Lemma colliding_requests_share_answer_witness :
  fst (payment_handler example_parse "shop:eu" "7" (post "shop:eu" "7")
         (boot [(legacyKey "deposit" "shop:eu" "7", record_text (quoted "pending") "500")])) =
  fst (payment_handler example_parse "shop" "eu:7" (post "shop" "eu:7")
         (boot [(legacyKey "deposit" "shop:eu" "7", record_text (quoted "pending") "500")])).
Proof.
  apply (colliding_requests_share_answer example_parse "shop" "eu" "7");
    vm_compute; reflexivity.
Defined.

(** X6. The four candidate keys of a request are pairwise different, so
    that a request never reads a key twice. *)
Theorem no_key_read_twice JSON_parse site id req w :
  NoDup (candidate_keys site id) ∧
  ∃ keys,
    wire (snd (payment_handler JSON_parse site id req w)) = wire w ++ map GET keys ∧
    NoDup keys.
Proof.
  assert (NoDup (candidate_keys site id)) as Hnodup.
  { unfold candidate_keys, TRANSACTION_TYPES, legacyKey, providerKey, KEY_PREFIX.
    simpl. repeat (apply NoDup_cons; split);
      rewrite ?elem_of_cons, ?elem_of_nil; try apply NoDup_nil_2;
      intros H; repeat destruct H as [H|H]; try done; discriminate H. }
  split; [exact Hnodup |].
  destruct (scan_keys JSON_parse (redis w) site id) as [[rest Hrest] _].
  eexists. split; [apply payment_handler_wire |].
  rewrite Hrest in Hnodup. by apply NoDup_app in Hnodup as [? _].
Qed.

(** ** The fields of an answer *)



(** ** The health route *)

Lemma health_handler_run w :
  health_handler w =
  (Returned (if connected (redis w)
             then {| code := 200; content := HealthyBody (rtt w) (clock w + rtt w) |}
             else {| code := 503;
                     content := UnhealthyBody "Connection is closed." (clock w + rtt w) |}),
   snd (redis_call PING w)).
Proof.
  unfold health_handler, try_catch, mbind, js_bind, Date_now, redis_call, redis_exec,
    c_json, mret, js_ret.
  destruct (connected (redis w)); simpl; repeat f_equal; lia.
Qed.


(** ** Routing *)

Section Routing.

Variable JSON_parse : string → option json.

(** The router runs one of three things. *)
Lemma route_cases req :
  route JSON_parse req =
    try_catch health_handler
      (λ error, mret {| code := 500; content := TextBody "Internal Server Error" |}) ∨
  (∃ site id,
     route JSON_parse req =
       try_catch (payment_handler JSON_parse site id req)
         (λ error, mret {| code := 500; content := TextBody "Internal Server Error" |})) ∨
  route JSON_parse req =
    try_catch (mret {| code := 404; content := TextBody "404 Not Found" |})
      (λ error, mret {| code := 500; content := TextBody "Internal Server Error" |}).
Proof.
  unfold route.
  repeat match goal with
         | |- context [match ?x with _ => _ end] => destruct x
         end; eauto.
Qed.

Lemma route_codes req w :
  ∃ res,
    fst (route JSON_parse req w) = Returned res ∧
    (code res = 200 ∨ code res = 404 ∨ code res = 503).
Proof.
  destruct (route_cases req) as [-> | [(site & id & ->) | ->]]; unfold try_catch.
  - rewrite health_handler_run. eexists. split; [reflexivity |].
    destruct (connected (redis w)); simpl; tauto.
  - destruct (payment_handler_run JSON_parse site id req w) as (w' & -> & _).
    eexists. split; [reflexivity |].
    destruct (answer_envelope JSON_parse (redis w) site id) as (envelope & -> & _).
    simpl. tauto.
  - eexists. split; [reflexivity |]. simpl. tauto.
Qed.

End Routing.

(** X9. [app.fetch] answers every request, and never with a 500: the
    code is 200, 204, 404 or 503, whatever the store holds and whether or
    not the store can be reached. *)
Theorem app_never_answers_500 JSON_parse req w :
  ∃ res,
    fst (app_fetch JSON_parse req w) = Returned res ∧
    (code res = 200 ∨ code res = 204 ∨ code res = 404 ∨ code res = 503).
Proof.
  destruct (isShuttingDown w) eqn:Hflag.
  - destruct (app_fetch_draining JSON_parse req w Hflag) as [-> _].
    eexists. split; [reflexivity |]. destruct (req_method req); simpl; tauto.
  - unfold app_fetch, logger, cors, shutdown_guard, read_isShuttingDown.
    rewrite !bind_run. simpl.
    destruct (req_method req) eqn:Hm;
      try (eexists; split; [reflexivity |]; simpl; tauto);
      rewrite !bind_run; simpl; rewrite Hflag;
      match goal with
      | |- context [route JSON_parse req ?x] =>
          destruct (route_codes JSON_parse req x) as (res & Hres & Hcode);
          destruct (route JSON_parse req x) as [o w1]; simpl in Hres; subst o
      end;
      (eexists; split; [reflexivity |]; tauto).
Qed.

(** ** Relations that every step keeps *)

Section Respects.

Context (R : world → world → Prop).
Hypothesis R_refl : ∀ w, R w w.
Hypothesis R_trans : ∀ w1 w2 w3, R w1 w2 → R w2 w3 → R w1 w3.

Lemma respects_ret {A : Type} (a : A) : respects R (mret a : js A).
Proof. intros w. apply R_refl. Qed.

Lemma respects_throw {A : Type} e : respects R (throw e : js A).
Proof. intros w. apply R_refl. Qed.

Lemma respects_lift {A : Type} (o : outcome A) : respects R (lift o).
Proof. intros w. apply R_refl. Qed.

Lemma respects_bind {A B : Type} (m : js A) (f : A → js B) :
  respects R m → (∀ a, respects R (f a)) → respects R (m ≫= f).
Proof.
  intros Hm Hf w. rewrite bind_run. specialize (Hm w).
  destruct (m w) as [[a|e] w1]; simpl in *; [| done].
  exact (R_trans _ _ _ Hm (Hf a w1)).
Qed.

Lemma respects_try_catch {A : Type} (m : js A) (h : exn → js A) :
  respects R m → (∀ e, respects R (h e)) → respects R (try_catch m h).
Proof.
  intros Hm Hh w. unfold try_catch. specialize (Hm w).
  destruct (m w) as [[a|e] w1]; simpl in *; [done |].
  exact (R_trans _ _ _ Hm (Hh e w1)).
Qed.

End Respects.

(** ** The store is only read *)

Lemma store_kept_refl w : store_kept w w.
Proof. split; [done |]. exists []. by rewrite app_nil_r. Qed.

Lemma store_kept_trans w1 w2 w3 :
  store_kept w1 w2 → store_kept w2 w3 → store_kept w1 w3.
Proof.
  intros [Hk1 (c1 & Hw1 & Hc1)] [Hk2 (c2 & Hw2 & Hc2)]. split; [congruence |].
  exists (c1 ++ c2). rewrite Hw2, Hw1, app_assoc. split; [done |].
  by apply Forall_app.
Qed.

Lemma store_kept_same (w w' : world) :
  keyspace (redis w') = keyspace (redis w) → wire w' = wire w → store_kept w w'.
Proof. intros Hk Hw. split; [done |]. exists []. by rewrite app_nil_r. Qed.

Lemma redis_call_store_kept c :
  not_a_write c = true → respects store_kept (redis_call c).
Proof.
  intros Hc w. unfold redis_call, redis_exec. split.
  - destruct (connected (redis w)); simpl; [| done].
    destruct c as [key|key value| |]; try done.
    by destruct (keyspace (redis w) !! key) as [[s|]|].
  - exists [c].
    destruct (if negb (connected (redis w)) then _ else _) as [o r].
    simpl. split; [done |]. by repeat constructor.
Qed.

Section StoreKept.

Variable JSON_parse : string → option json.

Lemma payment_handler_store_kept site id req :
  respects store_kept (payment_handler JSON_parse site id req).
Proof.
  intros w. destruct (payment_handler_evolves JSON_parse site id req w)
    as (_ & Hr & Hw & _).
  split; [by rewrite Hr |]. eexists. split; [exact Hw |].
  apply Forall_map. by apply Forall_true.
Qed.

Lemma health_handler_store_kept : respects store_kept health_handler.
Proof.
  intros w. rewrite health_handler_run. by apply redis_call_store_kept.
Qed.

Lemma route_store_kept req : respects store_kept (route JSON_parse req).
Proof.
  destruct (route_cases JSON_parse req) as [-> | [(site & id & ->) | ->]];
    apply respects_try_catch; try apply store_kept_trans;
    try (intros e; apply respects_ret, store_kept_refl).
  - apply health_handler_store_kept.
  - apply payment_handler_store_kept.
Qed.

Lemma console_log_store_kept e : respects store_kept (console_log e).
Proof. intros w. by apply store_kept_same. Qed.

Lemma app_fetch_store_kept req : respects store_kept (app_fetch JSON_parse req).
Proof.
  unfold app_fetch, logger, cors, shutdown_guard.
  apply respects_bind; [apply store_kept_trans | apply console_log_store_kept |].
  intros _. apply respects_bind; [apply store_kept_trans | |].
  - destruct (req_method req);
      try (apply respects_ret, store_kept_refl);
      (apply respects_bind; [apply store_kept_trans | by intros w; apply store_kept_refl |];
       intros [|];
       [apply respects_bind; [apply store_kept_trans | by intros w; apply store_kept_refl |];
        intros ts; apply respects_ret, store_kept_refl
       | apply route_store_kept]).
  - intros res. apply respects_bind;
      [apply store_kept_trans | apply console_log_store_kept |].
    intros _. apply respects_ret, store_kept_refl.
Qed.

Lemma gracefulShutdown_store_kept signal : respects store_kept (gracefulShutdown signal).
Proof.
  intros w. unfold gracefulShutdown, read_isShuttingDown. rewrite bind_run.
  destruct (isShuttingDown w); by apply store_kept_same.
Qed.

Lemma resume_shutdown_store_kept : respects store_kept resume_shutdown.
Proof.
  unfold resume_shutdown.
  apply respects_try_catch; [apply store_kept_trans | |].
  - apply respects_bind; [apply store_kept_trans | apply console_log_store_kept |].
    intros _. apply respects_bind;
      [apply store_kept_trans | by apply redis_call_store_kept |].
    intros _. intros w. by apply store_kept_same.
  - intros e w. by apply store_kept_same.
Qed.

Lemma step_store_kept e w : store_kept w (snd (step JSON_parse e w)).
Proof.
  destruct e as [name|req|[|]]; simpl.
  - apply gracefulShutdown_store_kept.
  - pose proof (app_fetch_store_kept req w) as H.
    by destruct (app_fetch JSON_parse req w) as [[res|e] w'].
  - rewrite bind_run. simpl.
    eapply store_kept_trans; [| apply gracefulShutdown_store_kept].
    by apply store_kept_same.
  - apply resume_shutdown_store_kept.
Qed.

End StoreKept.

(** X10. Whatever the process goes through (requests to any route,
    signals, timers that fire), it never writes to the store: the keys and
    their values stay as they were, and no SET is among the commands it
    sends. *)
Theorem store_never_written JSON_parse events w :
  store_kept w (run JSON_parse events w).
Proof.
  revert w. induction events as [|e events IH]; intros w; [apply store_kept_refl |].
  simpl. eapply store_kept_trans; [apply step_store_kept | apply IH].
Qed.

(** ** The shutdown sequence *)

(** X11. A first signal followed by the end of the two seconds of grace
    closes the connection and exits: with code 0 when [redis.quit()]
    went through, with code 1 when it was rejected. One QUIT is sent, and
    the two timers of the sequence are the only ones armed. *)
Theorem shutdown_completes JSON_parse signal w :
  isShuttingDown w = false →
  exit_code w = None →
  let w' := run JSON_parse [Signal signal; Fire ResumeShutdown] w in
  isShuttingDown w' = true ∧
  connected (redis w') = false ∧
  keyspace (redis w') = keyspace (redis w) ∧
  exit_code w' = Some (if connected (redis w) then 0 else 1) ∧
  wire w' = wire w ++ [QUIT] ∧
  timers w' = timers w ++ [(RejectShutdownTimeout, GRACEFUL_SHUTDOWN_TIMEOUT);
                           (ResumeShutdown, 2000)].
Proof.
  intros Hflag Hexit.
  unfold run, step, gracefulShutdown, resume_shutdown, read_isShuttingDown,
    try_catch, mbind, js_bind, redis_call, redis_exec. simpl.
  rewrite Hflag. simpl.
  destruct (connected (redis w)) eqn:Hc; simpl; rewrite ?Hexit, ?Hc;
    rewrite <- ?app_assoc; by repeat split.
Qed.

Lemma shutdown_completes_witness :
  exit_code (run example_parse [Signal "SIGTERM"; Fire ResumeShutdown] (boot [])) = Some 0 ∧
  exit_code (run example_parse [Signal "SIGTERM"; Fire ResumeShutdown] (unreachable [])) =
    Some 1.
Proof.
  split.
  - apply (shutdown_completes example_parse "SIGTERM" (boot [])); reflexivity.
  - apply (shutdown_completes example_parse "SIGTERM" (unreachable [])); reflexivity.
Defined.

(** X12. The timer of [GRACEFUL_SHUTDOWN_TIMEOUT] forces nothing. Its
    promise is not awaited, so that when it fires during a shutdown the
    rejection reaches the handler of unhandled rejections, which calls
    [gracefulShutdown] again: two lines go to the console, and the
    process neither disconnects nor exits. *)
Theorem shutdown_timeout_forces_nothing JSON_parse w :
  isShuttingDown w = true →
  evolves w (snd (step JSON_parse (Fire RejectShutdownTimeout) w)) [] ∧
  console (snd (step JSON_parse (Fire RejectShutdownTimeout) w)) =
    console w ++ [UnhandledRejection; ShutdownInProgress].
Proof.
  intros Hflag.
  unfold step, gracefulShutdown, read_isShuttingDown, mbind, js_bind, evolves.
  simpl. rewrite Hflag. simpl. rewrite app_nil_r, <- app_assoc.
  by repeat split.
Qed.

Lemma shutdown_timeout_forces_nothing_witness :
  exit_code (snd (step example_parse (Fire RejectShutdownTimeout) (draining []))) = None.
Proof.
  destruct (shutdown_timeout_forces_nothing example_parse (draining []) eq_refl)
    as [(_ & _ & _ & _ & -> & _) _].
  reflexivity.
Defined.

(** ** The log of a request *)

Lemma logged_refl P w : logged P w w.
Proof. exists []. by rewrite app_nil_r. Qed.

Lemma logged_trans P w1 w2 w3 : logged P w1 w2 → logged P w2 w3 → logged P w1 w3.
Proof.
  intros (l1 & H1 & Hl1) (l2 & H2 & Hl2). exists (l1 ++ l2).
  rewrite H2, H1, app_assoc. split; [done | by apply Forall_app].
Qed.

Lemma console_log_logged (P : log_event → bool) e :
  P e = true → respects (logged P) (console_log e).
Proof. intros He w. exists [e]. split; [done | by repeat constructor]. Qed.

Lemma redis_get_logged P key : respects (logged P) (redis_get key).
Proof.
  intros w. exists []. rewrite app_nil_r. split; [| done].
  unfold redis_get, redis_call, mbind, js_bind.
  by destruct (redis_exec (GET key) (redis w)) as [[rep|e] r].
Qed.

Section Logged.

Variable JSON_parse : string → option json.
Variables dk cid : string.

Lemma tagged_refl : (String.eqb dk dk && String.eqb cid cid) = true.
Proof. by rewrite !String.eqb_refl. Qed.

Lemma parse_logged data : respects (logged (tagged dk cid)) (parse JSON_parse data).
Proof.
  intros w. unfold parse.
  destruct data as [d|]; [destruct (JSON_parse d) |]; apply logged_refl.
Qed.

Lemma legacy_loop_logged site id types transaction :
  respects (logged (tagged dk cid))
    (legacy_loop JSON_parse dk cid site id types transaction).
Proof.
  induction types as [|type rest IH]; simpl.
  - apply respects_ret, logged_refl.
  - apply respects_bind; [apply logged_trans | apply redis_get_logged |].
    intros data. destruct (data_truthy data); [| exact IH].
    apply respects_bind; [apply logged_trans | |].
    + apply respects_try_catch; [apply logged_trans | |].
      * apply respects_bind; [apply logged_trans | apply parse_logged |].
        intros t. apply respects_bind; [apply logged_trans | |].
        -- apply console_log_logged. apply tagged_refl.
        -- intros _. apply respects_ret, logged_refl.
      * intros e. apply respects_bind; [apply logged_trans | |].
        -- apply console_log_logged. apply tagged_refl.
        -- intros _. apply respects_ret, logged_refl.
    + intros [t|]; [apply respects_ret, logged_refl | exact IH].
Qed.

Lemma find_transaction_logged site id :
  respects (logged (tagged dk cid)) (find_transaction JSON_parse dk cid site id).
Proof.
  unfold find_transaction.
  apply respects_bind; [apply logged_trans | apply redis_get_logged |].
  intros data. apply respects_bind; [apply logged_trans | |].
  - destruct (data_truthy data); [| apply respects_ret, logged_refl].
    apply respects_try_catch; [apply logged_trans | |].
    + apply respects_bind; [apply logged_trans | apply parse_logged |].
      intros t. apply respects_bind; [apply logged_trans | |].
      * apply console_log_logged. apply tagged_refl.
      * intros _. apply respects_ret, logged_refl.
    + intros e. apply respects_bind; [apply logged_trans | |].
      * apply console_log_logged. apply tagged_refl.
      * intros _. apply respects_ret, logged_refl.
  - intros t. destruct (negb (truthy t));
      [apply legacy_loop_logged | apply respects_ret, logged_refl].
Qed.

Lemma try_catch_block_logged site id :
  respects (logged (tagged dk cid))
    (try_catch (try_block JSON_parse dk cid site id) (catch_block dk cid)).
Proof.
  apply respects_try_catch; [apply logged_trans | |].
  - unfold try_block.
    apply respects_bind; [apply logged_trans | apply find_transaction_logged |].
    intros t. destruct (truthy t).
    + unfold found. apply respects_bind; [apply logged_trans | |].
      * apply respects_lift, logged_refl.
      * intros st. apply respects_bind; [apply logged_trans | |].
        -- apply console_log_logged. apply tagged_refl.
        -- intros _. apply respects_ret, logged_refl.
    + apply respects_bind; [apply logged_trans | |].
      * apply console_log_logged. apply tagged_refl.
      * intros _. apply respects_ret, logged_refl.
  - intros e. unfold catch_block. apply respects_bind; [apply logged_trans | |].
    + apply console_log_logged. apply tagged_refl.
    + intros _. apply respects_ret, logged_refl.
Qed.

End Logged.

(** X13. Every line a request to the business endpoint writes to the
    console carries the same two labels: the [x-debug-key] header, or N/A
    when it is absent or empty, and the [x-correlation-id] header, or a
    random identifier when it is absent or empty. The first line is the
    one that announces the check. *)
Theorem request_lines_carry_the_labels JSON_parse site id req w :
  let debugKey := string_or (header req "x-debug-key") "N/A" in
  let correlationId := string_or (header req "x-correlation-id") (entropy w) in
  ∃ lines,
    console (snd (payment_handler JSON_parse site id req w)) =
      console w ++ Checking debugKey correlationId id site :: lines ∧
    Forall (λ e, tagged debugKey correlationId e = true) lines.
Proof.
  intros debugKey correlationId. unfold payment_handler. rewrite bind_run.
  assert ((match header req "x-correlation-id" with
           | Some h => if is_empty h then randomUUID else mret h
           | None => randomUUID
           end) w = (Returned correlationId, w)) as ->.
  { subst correlationId. unfold string_or.
    destruct (header req "x-correlation-id") as [h|]; [destruct (is_empty h) |];
      reflexivity. }
  rewrite bind_run. simpl.
  match goal with
  | |- context [try_catch _ _ ?x] =>
      destruct (try_catch_block_logged JSON_parse debugKey correlationId site id x)
        as (lines & Hconsole & Hlines)
  end.
  exists lines. split; [| done]. etrans; [exact Hconsole |]. simpl.
  by rewrite <- app_assoc.
Qed.

(** ** The replica of the integration test *)

Section Replica.

Variable JSON_parse : string → option json.

Lemma legacy_scan_ext r r' site id types transaction :
  (∀ type, probe_key JSON_parse r (legacyKey type site id) =
           probe_key JSON_parse r' (legacyKey type site id)) →
  legacy_scan JSON_parse r site id types transaction =
  legacy_scan JSON_parse r' site id types transaction.
Proof.
  intros Hkeys. induction types as [|type rest IH]; simpl; [done |].
  by rewrite IH, Hkeys.
Qed.

Lemma probe_forgotten key w :
  probe_key JSON_parse (redis (forget key w)) key =
  if connected (redis w) then Miss else Failed (RedisError "Connection is closed.").
Proof.
  unfold probe_key, fetch, redis_exec, forget. simpl.
  rewrite lookup_delete_eq. by destruct (connected (redis w)).
Qed.

Lemma test_payment_handler_answer site id req w :
  fst (test_payment_handler JSON_parse site id req w) =
  Returned
    match try_result (fst (legacy_scan JSON_parse (redis w) site id
                             TRANSACTION_TYPES JNull)) with
    | Returned res => res
    | Thrown _ => {| code := 200; content := TransactionBody errorResponse |}
    end.
Proof.
  remember (legacy_scan JSON_parse (redis w) site id TRANSACTION_TYPES JNull)
    as ls eqn:Hls.
  unfold test_payment_handler. rewrite bind_run.
  set (dk := string_or (header req "x-debug-key") "N/A").
  assert (∃ cid, (match header req "x-correlation-id" with
                  | Some h => if is_empty h then randomUUID else mret h
                  | None => randomUUID
                  end) w = (Returned cid, w)) as [cid ->].
  { destruct (header req "x-correlation-id") as [h|]; [destruct (is_empty h) |];
      eexists; reflexivity. }
  rewrite bind_run. simpl. unfold try_catch, test_try_block.
  rewrite bind_run.
  match goal with
  | |- context [legacy_loop _ _ _ _ _ _ _ ?x] =>
      destruct (legacy_loop_run JSON_parse dk cid site id TRANSACTION_TYPES JNull x)
        as (w1 & Hrun & _);
      change (redis x) with (redis w) in Hrun
  end.
  rewrite <- Hls in Hrun. rewrite Hrun. unfold try_result.
  destruct (fst ls) as [t|e]; [| reflexivity].
  destruct (truthy t); [| reflexivity].
  unfold found. rewrite bind_run. unfold lift.
  by destruct (normalize_status (get_prop t "status")).
Qed.

End Replica.

(** X14. The handler that the integration test sets up is the handler
    of the service without the read of the provider key: it answers as
    the service would over the same store with that key deleted. So it
    answers as the service does whenever the provider key yields no
    record, and what the tests check says nothing of a store in which it
    yields one. *)
Theorem replica_skips_the_provider_key JSON_parse site id req w :
  fst (test_payment_handler JSON_parse site id req w) =
    fst (payment_handler JSON_parse site id req (forget (providerKey id) w)) ∧
  (nothing_found (probe_key JSON_parse (redis w) (providerKey id)) = true →
   fst (test_payment_handler JSON_parse site id req w) =
     fst (payment_handler JSON_parse site id req w)).
Proof.
  assert (∀ type,
    probe_key JSON_parse (redis (forget (providerKey id) w)) (legacyKey type site id) =
    probe_key JSON_parse (redis w) (legacyKey type site id)) as Hlegacy.
  { intros type. apply probe_forget_other, legacyKey_not_providerKey. }
  assert (fst (test_payment_handler JSON_parse site id req w) =
          fst (payment_handler JSON_parse site id req (forget (providerKey id) w)))
    as Hforget.
  { rewrite test_payment_handler_answer, payment_handler_answer. f_equal.
    unfold answer, scan. rewrite probe_forgotten.
    rewrite (legacy_scan_ext JSON_parse _ (redis w) site id TRANSACTION_TYPES JNull Hlegacy).
    simpl connected.
    destruct (connected (redis w)) eqn:Hc.
    - by destruct (legacy_scan JSON_parse (redis w) site id TRANSACTION_TYPES JNull).
    - unfold TRANSACTION_TYPES, legacy_scan, probe_key, fetch, redis_exec.
      by rewrite Hc. }
  split; [exact Hforget |].
  intros Hnothing. rewrite Hforget. apply handler_alike; [done | |].
  - right. split; [| done]. rewrite probe_forgotten.
    destruct (connected (redis w)) eqn:Hc; [done |].
    unfold probe_key, fetch, redis_exec in Hnothing. by rewrite Hc in Hnothing.
  - intros type. left. apply Hlegacy.
Qed.

(** X14 at work: a record under the deposit key, nothing under the
    provider key. *)
Lemma replica_skips_the_provider_key_witness :
  fst (test_payment_handler example_parse "s" "i" (post "s" "i")
         (boot [(legacyKey "deposit" "s" "i", record_text (quoted "pending") "500")])) =
  fst (payment_handler example_parse "s" "i" (post "s" "i")
         (boot [(legacyKey "deposit" "s" "i", record_text (quoted "pending") "500")])).
Proof.
  apply (proj2 (replica_skips_the_provider_key example_parse "s" "i" (post "s" "i")
    (boot [(legacyKey "deposit" "s" "i", record_text (quoted "pending") "500")]))).
  vm_compute. reflexivity.
Defined.

(** ** The start *)

(** X15. The progress bar has twenty cells, whatever the number of
    attempts: as many filled cells as attempts, up to twenty, and blank
    cells for the rest. *)
Theorem progress_has_twenty_cells (attempts : nat) :
  length (progress (Z.of_nat attempts)) = 20%nat ∧
  progress (Z.of_nat attempts) =
    repeat Filled (Nat.min attempts 20) ++ repeat Blank (20 - attempts).
Proof.
  unfold progress.
  replace (Z.to_nat (Z.min (Z.of_nat attempts) 20)) with (Nat.min attempts 20) by lia.
  replace (Z.to_nat (Z.max (20 - Z.of_nat attempts) 0)) with (20 - attempts)%nat by lia.
  split; [| done]. rewrite length_app, !repeat_length. lia.
Qed.

Section Start.

Variable JSON_parse : string → option json.
Variable sleep : Z → world → world.

Lemma waitForRedis_loop_step fuel attempts w out :
  (attempts < 30)%Z →
  waitForRedis_loop sleep (S fuel) 30 1000 attempts w out =
  if connected (redis w)
  then (Ready, snd (redis_call PING w), out ++ [RedisReady])
  else waitForRedis_loop sleep fuel 30 1000 (attempts + 1) (sleep 1000 w)
         (out ++ [Progress (progress (attempts + 1)) (attempts + 1) 30]).
Proof.
  intros Hlt. simpl. rewrite (proj2 (Z.ltb_lt attempts 30) Hlt).
  unfold redis_call, redis_exec. by destruct (connected (redis w)).
Qed.

Lemma waitForRedis_loop_end fuel attempts w out :
  (30 ≤ attempts)%Z →
  waitForRedis_loop sleep (S fuel) 30 1000 attempts w out =
  (NotReady "Redis not ready after 30 attempts", w, out).
Proof. intros Hge. simpl. by rewrite (proj2 (Z.ltb_ge attempts 30) Hge). Qed.

Lemma progress_lines_cons first count :
  (0 ≤ count)%Z →
  progress_lines first (count + 1) =
  Progress (progress first) first 30 :: progress_lines (first + 1) count.
Proof.
  intros Hc. unfold progress_lines. rewrite seqZ_cons by lia. simpl.
  by replace (Z.pred (count + 1)) with count by lia.
Qed.

Lemma iter_shift {A : Type} (f : A → A) n x : Nat.iter n f (f x) = Nat.iter (S n) f x.
Proof. induction n as [|n IH]; simpl; [done |]. by rewrite IH. Qed.

Lemma waitForRedis_loop_ready k : ∀ fuel attempts w out,
  (k < fuel)%nat →
  (attempts + Z.of_nat k < 30)%Z →
  (∀ j, (j < k)%nat → connected (redis (Nat.iter j (sleep 1000) w)) = false) →
  connected (redis (Nat.iter k (sleep 1000) w)) = true →
  waitForRedis_loop sleep fuel 30 1000 attempts w out =
  (Ready, snd (redis_call PING (Nat.iter k (sleep 1000) w)),
   out ++ progress_lines (attempts + 1) (Z.of_nat k) ++ [RedisReady]).
Proof.
  induction k as [|k IH]; intros fuel attempts w out Hfuel Hlt Hdown Hup;
    (destruct fuel as [|fuel]; [lia |]); rewrite waitForRedis_loop_step by lia.
  - simpl in Hup. by rewrite Hup.
  - pose proof (Hdown 0%nat ltac:(lia)) as H0. simpl in H0. rewrite H0.
    rewrite (IH fuel (attempts + 1)%Z (sleep 1000 w)); try lia.
    + rewrite iter_shift. f_equal.
      replace (Z.of_nat (S k)) with (Z.of_nat k + 1)%Z by lia.
      rewrite progress_lines_cons by lia. by rewrite <- app_assoc.
    + intros j Hj. rewrite iter_shift. apply Hdown. lia.
    + by rewrite iter_shift.
Qed.

Lemma waitForRedis_loop_gives_up n : ∀ fuel attempts w out,
  (n < fuel)%nat →
  (attempts + Z.of_nat n = 30)%Z →
  (∀ j, (j < n)%nat → connected (redis (Nat.iter j (sleep 1000) w)) = false) →
  waitForRedis_loop sleep fuel 30 1000 attempts w out =
  (NotReady "Redis not ready after 30 attempts", Nat.iter n (sleep 1000) w,
   out ++ progress_lines (attempts + 1) (Z.of_nat n)).
Proof.
  induction n as [|n IH]; intros fuel attempts w out Hfuel Hsum Hdown;
    (destruct fuel as [|fuel]; [lia |]).
  - rewrite waitForRedis_loop_end by lia. simpl. by rewrite app_nil_r.
  - rewrite waitForRedis_loop_step by lia.
    pose proof (Hdown 0%nat ltac:(lia)) as H0. simpl in H0. rewrite H0.
    rewrite (IH fuel (attempts + 1)%Z (sleep 1000 w)); try lia.
    + rewrite iter_shift. f_equal.
      replace (Z.of_nat (S n)) with (Z.of_nat n + 1)%Z by lia.
      rewrite progress_lines_cons by lia. by rewrite <- app_assoc.
    + intros j Hj. rewrite iter_shift. apply Hdown. lia.
Qed.


Lemma waitForRedis_ready_run (k : nat) w :
  (k < 30)%nat →
  (∀ j, (j < k)%nat → connected (redis (Nat.iter j (sleep 1000) w)) = false) →
  connected (redis (Nat.iter k (sleep 1000) w)) = true →
  waitForRedis sleep w =
  (Ready, snd (redis_call PING (Nat.iter k (sleep 1000) w)),
   WaitingForRedis :: progress_lines 1 (Z.of_nat k) ++ [RedisReady]).
Proof.
  intros Hk Hdown Hup. unfold waitForRedis.
  by rewrite (waitForRedis_loop_ready k 31 0 w [WaitingForRedis]) by (lia || done).
Qed.

Lemma waitForRedis_never_run w :
  (∀ j, (j < 30)%nat → connected (redis (Nat.iter j (sleep 1000) w)) = false) →
  waitForRedis sleep w =
  (NotReady "Redis not ready after 30 attempts", Nat.iter 30 (sleep 1000) w,
   WaitingForRedis :: progress_lines 1 30).
Proof.
  intros Hdown. unfold waitForRedis.
  by rewrite (waitForRedis_loop_gives_up 30 31 0 w [WaitingForRedis]) by (lia || done).
Qed.

End Start.

(** X16. [waitForRedis] returns at the first attempt that finds the
    connection up, if it is one of the first thirty: it has then slept
    once per failed attempt, written one progress line for each, and
    sent a single PING, the one that was answered. *)
Theorem waitForRedis_returns_when_ready (sleep : Z → world → world) (k : nat) w :
  (k < 30)%nat →
  (∀ j, (j < k)%nat → connected (redis (Nat.iter j (sleep 1000) w)) = false) →
  connected (redis (Nat.iter k (sleep 1000) w)) = true →
  waitForRedis sleep w =
  (Ready, snd (redis_call PING (Nat.iter k (sleep 1000) w)),
   WaitingForRedis :: progress_lines 1 (Z.of_nat k) ++ [RedisReady]).
Proof. apply waitForRedis_ready_run. Qed.

(** X16 at work: the connection is down at the start and comes up during
    the first sleep. *)
Lemma waitForRedis_returns_when_ready_witness :
  fst (fst (waitForRedis comes_up (unreachable []))) = Ready.
Proof.
  rewrite (waitForRedis_returns_when_ready comes_up 1 (unreachable [])).
  - reflexivity.
  - lia.
  - intros j Hj. assert (j = 0%nat) as -> by lia. reflexivity.
  - reflexivity.
Defined.

(** X17. When thirty attempts in a row find the connection down,
    [waitForRedis] throws "Redis not ready after 30 attempts": it has
    slept thirty times, written thirty progress lines and sent no
    command. *)
Theorem waitForRedis_gives_up (sleep : Z → world → world) w :
  (∀ j, (j < 30)%nat → connected (redis (Nat.iter j (sleep 1000) w)) = false) →
  waitForRedis sleep w =
  (NotReady "Redis not ready after 30 attempts", Nat.iter 30 (sleep 1000) w,
   WaitingForRedis :: progress_lines 1 30).
Proof. apply waitForRedis_never_run. Qed.

Lemma waitForRedis_gives_up_witness :
  fst (fst (waitForRedis stays (unreachable []))) =
  NotReady "Redis not ready after 30 attempts".
Proof.
  rewrite (waitForRedis_gives_up stays (unreachable [])); [reflexivity |].
  intros j _. induction j as [|j IH]; [reflexivity | exact IH].
Defined.


(** X19. [startServer] hands a server to Bun only after a PING was
    answered; when [waitForRedis] gives up it hands nothing, drops the
    connection and exits with code 1. *)
Theorem startServer_needs_the_store JSON_parse (sleep : Z → world → world) listen w :
  (∀ k,
     (k < 30)%nat →
     (∀ j, (j < k)%nat → connected (redis (Nat.iter j (sleep 1000) w)) = false) →
     connected (redis (Nat.iter k (sleep 1000) w)) = true →
     startServer JSON_parse sleep listen w =
       (Some {| Server.port := listen; Server.fetch := app_fetch JSON_parse |},
        snd (redis_call PING (Nat.iter k (sleep 1000) w)),
        WaitingForRedis :: progress_lines 1 (Z.of_nat k) ++
          [RedisReady; ServerStarted listen])) ∧
  ((∀ j, (j < 30)%nat → connected (redis (Nat.iter j (sleep 1000) w)) = false) →
   exit_code (Nat.iter 30 (sleep 1000) w) = None →
   fst (fst (startServer JSON_parse sleep listen w)) = None ∧
   connected (redis (snd (fst (startServer JSON_parse sleep listen w)))) = false ∧
   exit_code (snd (fst (startServer JSON_parse sleep listen w))) = Some 1 ∧
   wire (snd (fst (startServer JSON_parse sleep listen w))) =
     wire (Nat.iter 30 (sleep 1000) w)).
Proof.
  split.
  - intros k Hk Hdown Hup. unfold startServer.
    rewrite (waitForRedis_ready_run sleep k w Hk Hdown Hup).
    f_equal. simpl. by rewrite <- app_assoc.
  - intros Hdown Hexit. unfold startServer.
    rewrite (waitForRedis_never_run sleep w Hdown).
    remember (Nat.iter 30 (sleep 1000) w) as w30 eqn:Hw30.
    simpl. by rewrite Hexit.
Qed.

Lemma startServer_needs_the_store_witness :
  fst (fst (startServer example_parse stays 3000 (unreachable []))) = None ∧
  exit_code (snd (fst (startServer example_parse stays 3000 (unreachable [])))) = Some 1.
Proof.
  destruct (proj2 (startServer_needs_the_store example_parse stays 3000 (unreachable [])))
    as (Hnone & _ & Hexit & _).
  - intros j _. induction j as [|j IH]; [reflexivity | exact IH].
  - reflexivity.
  - split; [exact Hnone | exact Hexit].
Defined.

(** ** The middleware in front of the business endpoint *)


